(** * salamanca.ineq: inequality conversions and the log-normal income model

    A shallow embedding of [salamanca/ineq.py] and the properties its
    specification states about it.

    The Python module is written against numpy's duck-typed numbers, so the
    embedding is written once over an interface [Number] of the arithmetic
    the source uses, and read at two instances:
    - [float_Number]: IEEE-754 binary64 (Rocq's primitive floats), the values
      Python's [float] and numpy's [float64] really compute with, including
      infinities and NaN;
    - [R_Number]: exact real arithmetic, the idealisation in which the
      algebraic identities of the conversions are stated ("up to
      floating-point tolerance" in the specification).
    scipy's special functions are outside the repository; they are the
    interface [Special], with their assumed properties stated as hypotheses
    where a proof needs them.

    [AttrObject], [LogNormalData] and [LogNormal] are objects that are
    copied and updated in place, so their methods are computations on a
    store of objects, in a state-and-exception monad [M]. *)

From Stdlib Require Import ZArith Reals Lra Floats.
From stdpp Require Import base option list strings gmap.

Set Default Proof Using "Type".
(* Decimal literals are read as Python reads them: the nearest binary64. *)
Set Warnings "-inexact-float".

(* ===================================================================== *)
(** * Numbers *)

(** The arithmetic of the source. [n_sqr x] is [x ** 2], [n_root x] is
    [x ** 0.5], [n_lt x y] is [x < y] ([x > y] is [n_lt y x]) and
    [n_is_zero x] is [x == 0], the test behind the truth value of a number. *)
Class Number (F : Type) := {
  of_Z : Z -> F;
  n_add : F -> F -> F;
  n_sub : F -> F -> F;
  n_mul : F -> F -> F;
  n_div : F -> F -> F;
  n_neg : F -> F;
  n_sqr : F -> F;
  n_root : F -> F;
  n_lt : F -> F -> bool;
  n_is_zero : F -> bool
}.

(** A decimal literal [n / d], e.g. [6.64] is [dec 664 100]. *)
Definition dec {F} {N : Number F} (n d : Z) : F := n_div (of_Z n) (of_Z d).

Definition n_gt {F} {N : Number F} (x y : F) : bool := n_lt y x.

(** ** Exact reals *)

(** Comparisons are decided classically. [x ** 0.5] is the real square
    root, which is 0 on the negative numbers; the source takes it of
    nonnegative numbers on every path the theorems below follow. *)

Definition Rltb (x y : R) : bool := if Rlt_dec x y then true else false.
Definition Reqb (x y : R) : bool := if Req_dec_T x y then true else false.

#[export] Instance R_Number : Number R := {|
  of_Z := IZR;
  n_add := Rplus;
  n_sub := Rminus;
  n_mul := Rmult;
  n_div := Rdiv;
  n_neg := Ropp;
  n_sqr := fun x => (x * x)%R;
  n_root := R_sqrt.sqrt;
  n_lt := Rltb;
  n_is_zero := fun x => Reqb x 0
|}.

(** ** IEEE-754 binary64 *)

(** [x ** 2] is read as [x * x] and [x ** 0.5] as the correctly rounded
    square root. Integer literals are converted exactly. *)

Definition float_of_Z (z : Z) : float :=
  match z with
  | Z0 => PrimFloat.zero
  | Zpos _ => PrimFloat.of_uint63 (Uint63.of_Z z)
  | Zneg p => PrimFloat.opp (PrimFloat.of_uint63 (Uint63.of_Z (Zpos p)))
  end.

#[export] Instance float_Number : Number float := {|
  of_Z := float_of_Z;
  n_add := PrimFloat.add;
  n_sub := PrimFloat.sub;
  n_mul := PrimFloat.mul;
  n_div := PrimFloat.div;
  n_neg := PrimFloat.opp;
  n_sqr := fun x => PrimFloat.mul x x;
  n_root := PrimFloat.sqrt;
  n_lt := PrimFloat.ltb;
  n_is_zero := fun x => PrimFloat.eqb x PrimFloat.zero
|}.

(* ===================================================================== *)
(** * Scalars and arrays *)

(** "numeric or array-like": a single number or a one-dimensional array. *)
Inductive nd (A : Type) : Type :=
  | Scalar (x : A)
  | Array (xs : list A).
Arguments Scalar {A} x.
Arguments Array {A} xs.

(** A numpy ufunc: applied elementwise, the shape is kept. *)
Definition nd_map {A B} (f : A -> B) (x : nd A) : nd B :=
  match x with
  | Scalar a => Scalar (f a)
  | Array l => Array (map f l)
  end.

(** A binary ufunc with broadcasting of a scalar against an array. Two
    arrays are combined position by position; numpy refuses two arrays of
    different lengths, which does not arise in this module: every array
    operand is derived elementwise from the one input array. *)
Definition nd_zip {A B C} (f : A -> B -> C) (x : nd A) (y : nd B) : nd C :=
  match x, y with
  | Scalar a, Scalar b => Scalar (f a b)
  | Scalar a, Array l => Array (map (f a) l)
  | Array l, Scalar b => Array (map (fun a => f a b) l)
  | Array l, Array k => Array (zip_with f l k)
  end.

(** [np.all]: every element is true ([True] on the empty array). *)
Definition np_all (x : nd bool) : bool :=
  match x with
  | Scalar b => b
  | Array l => forallb (fun b => b) l
  end.

Declare Scope nd_scope.
Delimit Scope nd_scope with nd.

Section NdArith.
Context {F : Type} {N : Number F}.

Definition nd_add : nd F -> nd F -> nd F := nd_zip n_add.
Definition nd_sub : nd F -> nd F -> nd F := nd_zip n_sub.
Definition nd_mul : nd F -> nd F -> nd F := nd_zip n_mul.
Definition nd_div : nd F -> nd F -> nd F := nd_zip n_div.
Definition nd_sqr : nd F -> nd F := nd_map n_sqr.
Definition nd_root : nd F -> nd F := nd_map n_root.
Definition nd_lt : nd F -> nd F -> nd bool := nd_zip n_lt.
Definition nd_gt : nd F -> nd F -> nd bool := nd_zip n_gt.
End NdArith.

Infix "+" := nd_add : nd_scope.
Infix "-" := nd_sub : nd_scope.
Infix "*" := nd_mul : nd_scope.
Infix "/" := nd_div : nd_scope.
Infix "<?" := nd_lt : nd_scope.
Infix ">?" := nd_gt : nd_scope.

(* ===================================================================== *)
(** * The special-function library *)

(** scipy.special, scipy.stats and the two numpy functions the module
    calls. The elementwise ones are given on one number and lifted with
    [nd_map]; the distribution queries of [scipy.stats.lognorm] take their
    arguments as they are passed. *)
Class Special (F : Type) := {
  erf : F -> F;
  erfinv : F -> F;
  np_exp : F -> F;
  np_log : F -> F;
  norm_cdf : F -> F;
  norm_ppf : F -> F;
  lognorm_cdf : nd F -> nd F -> nd F -> nd F;
  lognorm_mean : nd F -> nd F -> nd F;
  lognorm_median : nd F -> nd F -> nd F;
  lognorm_var : nd F -> nd F -> nd F;
  lognorm_std : nd F -> nd F -> nd F
}.

(* ===================================================================== *)
(** * Exceptions *)

(** The exceptions of the source are all [ValueError]; the specification
    calls the ones of the conversions DomainError and the ones of [check]
    ValidationError. [AttributeError] and [TypeError] are what Python raises
    on a missing attribute and on arithmetic with [None]. [Dangling] is not
    a Python exception: it marks a reference to no object, which no Python
    program can hold. *)
Inductive exn : Type :=
  | ValueError (msg : string)
  | AttributeError (name : string)
  | TypeError (msg : string)
  | Dangling.

Inductive result (A : Type) : Type :=
  | OK (a : A)
  | Raise (e : exn).
Arguments OK {A} a.
Arguments Raise {A} e.

(* ===================================================================== *)
(** * The conversions *)

Section Conversions.
Context {F : Type} {N : Number F} {S : Special F}.

Definition MAX_THEIL : F := dec 664 100.

Definition gini_to_std (g : nd F) : nd F :=
  (Scalar (of_Z 2) * nd_map erfinv g)%nd.

Definition std_to_gini (s : nd F) : nd F :=
  nd_map erf (Scalar (dec 5 10) * s)%nd.

Definition theil_to_std (t : nd F) : nd F :=
  nd_root (Scalar (of_Z 2) * t)%nd.

Definition std_to_theil (s : nd F) : nd F :=
  (nd_sqr s / Scalar (of_Z 2))%nd.

Definition theil_empirical_constants : F * F * F :=
  (dec 216 1000, dec 991 1000, dec 3 1000).

Definition gini_to_theil (g : nd F) (empirical : bool) : result (nd F) :=
  if negb (np_all (g >? Scalar (of_Z 0))%nd && np_all (g <? Scalar (of_Z 1))%nd)
  then Raise (ValueError "Gini not within (0, 1)")
  else
    let s := gini_to_std g in
    let t := std_to_theil s in
    let t :=
      if empirical then
        let '(a, b, c) := theil_empirical_constants in
        ((Scalar (n_neg b)
          + nd_root (Scalar (n_sqr b)
                     - Scalar (n_mul (of_Z 4) a) * (Scalar c - t)))
         / Scalar (n_mul (of_Z 2) a))%nd
      else t in
    if negb (np_all (t <? Scalar MAX_THEIL)%nd && np_all (t >? Scalar (of_Z 0))%nd)
    then Raise (ValueError "Theil not within (0, 2.88)")
    else OK t.

Definition theil_to_gini (t : nd F) (empirical : bool) : result (nd F) :=
  if negb (np_all (t <? Scalar MAX_THEIL)%nd && np_all (t >? Scalar (of_Z 0))%nd)
  then Raise (ValueError "Theil not within (0, 2.88)")
  else
    let t :=
      if empirical then
        let '(a, b, c) := theil_empirical_constants in
        (Scalar a * nd_sqr t + Scalar b * t + Scalar c)%nd
      else t in
    let s := theil_to_std t in
    let g := std_to_gini s in
    if negb (np_all (g >? Scalar (of_Z 0))%nd && np_all (g <? Scalar (of_Z 1))%nd)
    then Raise (ValueError "Gini not within (0, 1)")
    else OK g.
End Conversions.

(* ===================================================================== *)
(** * Objects and the store *)

(** An attribute value of a configuration object: [None], a bool or a
    number (the docstring of [LogNormal]: inc, gini and theil numeric, mean
    bool). These are immutable, so a value is shared or copied alike. *)
Inductive val (F : Type) : Type :=
  | VNone
  | VBool (b : bool)
  | VNum (x : F).
Arguments VNone {F}.
Arguments VBool {F} b.
Arguments VNum {F} x.

Definition is_None {F} (v : val F) : bool :=
  match v with VNone => true | _ => false end.

(** An object is its attribute dictionary; the store maps the identity of
    every live object to it, so that two names for one object see the same
    updates. The keyword arguments are a dict in insertion order. *)
Abbreviation loc := positive (only parsing).
Abbreviation attrs F := (gmap string (val F)) (only parsing).
Abbreviation heap F := (gmap positive (gmap string (val F))) (only parsing).
Abbreviation kwargs F := (list (string * val F)) (only parsing).

(** Computations on the store that may raise: the store is kept when an
    exception propagates. *)
Definition M (F A : Type) : Type := heap F -> heap F * result A.

Definition ret {F A} (a : A) : M F A := fun h => (h, OK a).
Definition raise {F A} (e : exn) : M F A := fun h => (h, Raise e).
Definition bind {F A B} (m : M F A) (k : A -> M F B) : M F B :=
  fun h => match m h with
           | (h', OK a) => k a h'
           | (h', Raise e) => (h', Raise e)
           end.

Declare Scope m_scope.
Delimit Scope m_scope with m.
Notation "x <- c1 ;; c2" := (bind c1 (fun x => c2))
  (at level 100, c1 at next level, right associativity) : m_scope.
Notation "c1 ;; c2" := (bind c1 (fun _ => c2))
  (at level 100, right associativity) : m_scope.
Open Scope m_scope.

Section Store.
Context {F : Type}.

Definition get_obj (l : loc) : M F (attrs F) :=
  fun h => match h !! l with
           | Some o => (h, OK o)
           | None => (h, Raise Dangling)
           end.

Definition put_obj (l : loc) (o : attrs F) : M F unit :=
  fun h => (<[l := o]> h, OK tt).

(** A new object gets an identity no live object has. *)
Definition alloc (o : attrs F) : M F loc :=
  fun h => let l := fresh (dom h) in (<[l := o]> h, OK l).

(** [getattr(x, k, None)] *)
Definition getattr_default (x : loc) (k : string) : M F (val F) :=
  o <- get_obj x ;; ret (default VNone (o !! k)).

(** [x.k] *)
Definition getattr (x : loc) (k : string) : M F (val F) :=
  o <- get_obj x ;;
  match o !! k with
  | Some v => ret v
  | None => raise (AttributeError k)
  end.

(** [setattr(x, k, v)] *)
Definition setattr (x : loc) (k : string) (v : val F) : M F unit :=
  o <- get_obj x ;; put_obj x (<[k := v]> o).

(** [deepcopy(x)]: a new object with a copy of the attribute dictionary. *)
Definition deepcopy (x : loc) : M F loc :=
  o <- get_obj x ;; alloc o.
End Store.

(* ===================================================================== *)
(** * AttrObject and LogNormalData *)

Section AttrObject.
Context {F : Type} {N : Number F}.

(** The loop of [update]: [for k, v in kwargs.items()]. *)
Fixpoint update_loop (x : loc) (override : bool) (kw : kwargs F) : M F unit :=
  match kw with
  | [] => ret tt
  | (k, v) :: kw' =>
      b <- (if override then ret true
            else cur <- getattr_default x k ;; ret (is_None cur)) ;;
      (if b : bool then setattr x k v else ret tt) ;;
      update_loop x override kw'
  end.

Definition update (self : loc) (copy override : bool) (kw : kwargs F) : M F loc :=
  x <- (if copy then deepcopy self else ret self) ;;
  update_loop x override kw ;;
  ret x.

(** [AttrObject.__init__] *)
Definition AttrObject_init (self : loc) (kw : kwargs F) : M F unit :=
  update self false true kw ;; ret tt.

(** [LogNormalData(kwargs)]: a new object, then [__init__]. *)
Definition LogNormalData_new (kw : kwargs F) : M F loc :=
  self <- alloc ∅ ;;
  AttrObject_init self kw ;;
  ret self.

Definition _get (self : loc) (x : string) : M F (val F) :=
  getattr_default self x.

Definition defaults : kwargs F :=
  [("inc", VNum (of_Z 1)); ("mean", VBool true);
   ("gini", VNone); ("theil", VNone)]%string.

Definition add_defaults (self : loc) (copy : bool) : M F loc :=
  update self copy false defaults.

(** [all(p(_) for _ in x)] *)
Fixpoint all_m (p : string -> M F bool) (x : list string) : M F bool :=
  match x with
  | [] => ret true
  | k :: x' => b <- p k ;; if b : bool then all_m p x' else ret false
  end.

(** The second loop of [check]. *)
Fixpoint check_declared (self : loc) (x : list string) : M F unit :=
  match x with
  | [] => ret tt
  | k :: x' =>
      v <- _get self k ;;
      if is_None v
      then raise (ValueError ("Must declare value for " +:+ k))
      else check_declared self x'
  end.

Definition check (self : loc) : M F loc :=
  let x := ["theil"; "gini"]%string in
  bad <- all_m (fun k => v <- _get self k ;; ret (is_None v)) x ;;
  if bad : bool then raise (ValueError "Must use either theil or gini") else
  bad <- all_m (fun k => v <- _get self k ;; ret (negb (is_None v))) x ;;
  if bad : bool then raise (ValueError "Cannot use both theil and gini") else
  let x := ["inc"; "mean"]%string in
  check_declared self x ;;
  ret self.
End AttrObject.

(* ===================================================================== *)
(** * LogNormal *)

Record LogNormal : Type := { init_data : loc }.

Section LogNormal.
Context {F : Type} {N : Number F} {S : Special F}.

Definition LogNormal_new (kw : kwargs F) : M F LogNormal :=
  d <- LogNormalData_new kw ;; ret {| init_data := d |}.

(** A value used as a number; [True] and [False] are 1 and 0. *)
Definition to_num (v : val F) : M F F :=
  match v with
  | VNum x => ret x
  | VBool b => ret (of_Z (if b then 1 else 0))
  | VNone => raise (TypeError "unsupported operand type: NoneType")
  end.

(** The truth value of an attribute in [if data.mean]. *)
Definition truthy (v : val F) : bool :=
  match v with
  | VNone => false
  | VBool b => b
  | VNum x => negb (n_is_zero x)
  end.

(** The pair is returned as two numbers: where the source returns
    [data.inc] itself as the scale, a bool is read as 1 or 0 ([None] cannot
    reach that line, [check] has refused it). *)
Definition params (self : LogNormal) (kw : kwargs F) : M F (nd F * nd F) :=
  d <- update (init_data self) true true kw ;;
  d <- add_defaults d true ;;
  data <- check d ;;
  theil <- getattr data "theil" ;;
  shape <- (if is_None theil
            then g <- getattr data "gini" ;; g <- to_num g ;;
                 ret (gini_to_std (Scalar g))
            else t <- to_num theil ;; ret (theil_to_std (Scalar t))) ;;
  mean <- getattr data "mean" ;;
  scale <- (if truthy mean
            then inc <- getattr data "inc" ;; inc <- to_num inc ;;
                 ret (nd_map np_exp
                        (nd_map np_log (Scalar inc)
                         - nd_sqr shape / Scalar (of_Z 2))%nd)
            else inc <- getattr data "inc" ;; inc <- to_num inc ;;
                 ret (Scalar inc)) ;;
  ret (shape, scale).

Definition ppf (self : LogNormal) (x : nd F) (kw : kwargs F) : M F (nd F) :=
  p <- params self kw ;;
  let '(shape, scale) := p in
  ret (lognorm_cdf x shape scale).

Definition cdf (self : LogNormal) (x : nd F) (kw : kwargs F) : M F (nd F) :=
  p <- params self kw ;;
  let '(shape, scale) := p in
  ret (lognorm_cdf x shape scale).

Definition lorenz (self : LogNormal) (x : nd F) (kw : kwargs F) : M F (nd F) :=
  p <- params self kw ;;
  let '(shape, scale) := p in
  ret (nd_map norm_cdf (nd_map norm_ppf x - shape)%nd).

Definition mean (self : LogNormal) (kw : kwargs F) : M F (nd F) :=
  p <- params self kw ;;
  let '(shape, scale) := p in
  ret (lognorm_mean shape scale).

Definition median (self : LogNormal) (kw : kwargs F) : M F (nd F) :=
  p <- params self kw ;;
  let '(shape, scale) := p in
  ret (lognorm_median shape scale).

Definition var (self : LogNormal) (kw : kwargs F) : M F (nd F) :=
  p <- params self kw ;;
  let '(shape, scale) := p in
  ret (lognorm_var shape scale).

Definition std (self : LogNormal) (kw : kwargs F) : M F (nd F) :=
  p <- params self kw ;;
  let '(shape, scale) := p in
  ret (lognorm_std shape scale).
End LogNormal.

(* ===================================================================== *)
(** * The methods as functions of the attribute dictionary *)

(** [field o k] is [getattr(o, k, None)]; a field is unset when it is [None]. *)
Definition field {F} (o : attrs F) (k : string) : val F := default VNone (o !! k).

Definition unset {F} (o : attrs F) (k : string) : Prop := is_None (field o k) = true.
Definition is_set {F} (o : attrs F) (k : string) : Prop := is_None (field o k) = false.

(** The attribute dictionary after the loop of [update] has run over it. *)
Definition apply_field {F} (override : bool) (o : attrs F) (kv : string * val F) : attrs F :=
  if override || is_None (default VNone (o !! kv.1)) then <[kv.1 := kv.2]> o else o.

Definition apply_fields {F} (override : bool) (kw : kwargs F) (o : attrs F) : attrs F :=
  fold_left (apply_field override) kw o.

(** The verdict of [check] as a function of the attribute dictionary. *)
Definition check_result {F} (o : attrs F) : result unit :=
  if is_None (field o "theil") && is_None (field o "gini")
  then Raise (ValueError "Must use either theil or gini")
  else if negb (is_None (field o "theil")) && negb (is_None (field o "gini"))
  then Raise (ValueError "Cannot use both theil and gini")
  else if is_None (field o "inc")
  then Raise (ValueError "Must declare value for inc")
  else if is_None (field o "mean")
  then Raise (ValueError "Must declare value for mean")
  else OK tt.

(** Exactly one of gini and theil is set, and inc and mean are set. *)
Definition accepted {F} (o : attrs F) : Prop :=
  (is_set o "gini" /\ unset o "theil" \/ unset o "gini" /\ is_set o "theil")
  /\ is_set o "inc" /\ is_set o "mean".

(** The configuration a query works on: the baseline, the overrides of the
    call on top, the defaults in the gaps. *)
Definition effective {F} {N : Number F} (o : attrs F) (kw : kwargs F) : attrs F :=
  apply_fields false defaults (apply_fields true kw o).

(** The store after [params]: the two copies it made are left behind. *)
Definition params_store {F} {N : Number F} (h : heap F) (o : attrs F) (kw : kwargs F) : heap F :=
  let h1 := <[fresh (dom h) := apply_fields true kw o]> h in
  <[fresh (dom h1) := effective o kw]> h1.

Section Derive.
Context {F : Type} {N : Number F} {S : Special F}.

Definition num_of (v : val F) : F :=
  match v with
  | VNum x => x
  | VBool b => of_Z (if b then 1 else 0)
  | VNone => of_Z 0
  end.

(** What [params] derives from a configuration that [check] accepted. *)
Definition shape_of (data : attrs F) : nd F :=
  if is_None (field data "theil")
  then gini_to_std (Scalar (num_of (field data "gini")))
  else theil_to_std (Scalar (num_of (field data "theil"))).

Definition scale_of (data : attrs F) : nd F :=
  if truthy (field data "mean")
  then nd_map np_exp (nd_map np_log (Scalar (num_of (field data "inc")))
                      - nd_sqr (shape_of data) / Scalar (of_Z 2))%nd
  else Scalar (num_of (field data "inc")).

(** The outcome of [params] as a function of the configuration. *)
Definition params_result (data : attrs F) : result (nd F * nd F) :=
  match check_result data with
  | OK _ => OK (shape_of data, scale_of data)
  | Raise e => Raise e
  end.
End Derive.


(* ===================================================================== *)
(** * Clients of LogNormal *)

(** A call of one of the query methods, and a sequence of such calls on one
    instance. *)
Inductive query (F : Type) : Type :=
  | Qparams
  | Qppf (x : nd F)
  | Qcdf (x : nd F)
  | Qlorenz (x : nd F)
  | Qmean
  | Qmedian
  | Qvar
  | Qstd.
Arguments Qparams {F}.
Arguments Qppf {F} x.
Arguments Qcdf {F} x.
Arguments Qlorenz {F} x.
Arguments Qmean {F}.
Arguments Qmedian {F}.
Arguments Qvar {F}.
Arguments Qstd {F}.

Inductive answer (F : Type) : Type :=
  | Pair (p : nd F * nd F)
  | Value (v : nd F).
Arguments Pair {F} p.
Arguments Value {F} v.

Section Clients.
Context {F : Type} {N : Number F} {S : Special F}.

Definition call (self : LogNormal) (q : query F) (kw : kwargs F) : M F (answer F) :=
  match q with
  | Qparams => p <- params self kw ;; ret (Pair p)
  | Qppf x => v <- ppf self x kw ;; ret (Value v)
  | Qcdf x => v <- cdf self x kw ;; ret (Value v)
  | Qlorenz x => v <- lorenz self x kw ;; ret (Value v)
  | Qmean => v <- mean self kw ;; ret (Value v)
  | Qmedian => v <- median self kw ;; ret (Value v)
  | Qvar => v <- var self kw ;; ret (Value v)
  | Qstd => v <- std self kw ;; ret (Value v)
  end.


(** The answer to a query from the pair [params] derived. *)
Definition query_answer (q : query F) (p : nd F * nd F) : answer F :=
  let '(shape, scale) := p in
  match q with
  | Qparams => Pair (shape, scale)
  | Qppf x | Qcdf x => Value (lognorm_cdf x shape scale)
  | Qlorenz x => Value (nd_map norm_cdf (nd_map norm_ppf x - shape)%nd)
  | Qmean => Value (lognorm_mean shape scale)
  | Qmedian => Value (lognorm_median shape scale)
  | Qvar => Value (lognorm_var shape scale)
  | Qstd => Value (lognorm_std shape scale)
  end.
End Clients.

(* ===================================================================== *)
(** * The conversions on one number *)

(** What each conversion computes for one element of its input, between the
    two domain checks. *)
Section Kernels.
Context {F : Type} {N : Number F} {S : Special F}.

Definition in_unit (x : F) : bool := n_gt x (of_Z 0) && n_lt x (of_Z 1).
Definition in_theil (x : F) : bool := n_lt x MAX_THEIL && n_gt x (of_Z 0).

Definition gini_to_std_at (x : F) : F := n_mul (of_Z 2) (erfinv x).
Definition std_to_gini_at (x : F) : F := erf (n_mul (dec 5 10) x).
Definition theil_to_std_at (x : F) : F := n_root (n_mul (of_Z 2) x).
Definition std_to_theil_at (x : F) : F := n_div (n_sqr x) (of_Z 2).

(** The empirical quadratic and the root the source takes of it. *)
Definition quad (t : F) : F :=
  let '(a, b, c) := theil_empirical_constants in
  n_add (n_add (n_mul a (n_sqr t)) (n_mul b t)) c.

Definition unquad (t : F) : F :=
  let '(a, b, c) := theil_empirical_constants in
  n_div (n_add (n_neg b)
           (n_root (n_sub (n_sqr b) (n_mul (n_mul (of_Z 4) a) (n_sub c t)))))
        (n_mul (of_Z 2) a).

Definition gini_to_theil_at (empirical : bool) (x : F) : F :=
  let t := std_to_theil_at (gini_to_std_at x) in
  if empirical then unquad t else t.

Definition theil_to_gini_at (empirical : bool) (x : F) : F :=
  std_to_gini_at (theil_to_std_at (if empirical then quad x else x)).
End Kernels.

(** A property of every element. *)
Definition nd_Forall {A} (P : A -> Prop) (x : nd A) : Prop :=
  match x with
  | Scalar a => P a
  | Array l => Forall P l
  end.

(* ===================================================================== *)
(** * A stand-in for the special functions *)

(** scipy is not part of the development. To exhibit inputs on which the
    hypotheses of the theorems hold, the interface is instantiated with
    algebraic stand-ins: the sigmoid [x / (1 + |x|)] and its inverse
    [g / (1 - |g|)] for erf and erfinv, which share with them what the
    proofs use (odd, increasing, onto (-1, 1), inverse to each other), and
    the normal and log-normal functions written from them with scipy's
    formulas. On binary64 they take the values scipy takes at the ends:
    erfinv(1) and norm.ppf(1) are +infinity, norm.ppf(0) is -infinity,
    norm.cdf is 0 and 1 at the infinities, and NaN goes to NaN. exp and
    log are replaced by their first-order parts [1 + x] and [x - 1]. *)
Section Standin.
Context {F : Type} {N : Number F}.

Definition n_abs (x : F) : F := if n_lt x (of_Z 0) then n_neg x else x.

Definition standin_erf (x : F) : F :=
  if n_lt x (of_Z 0)
  then n_sub (n_div (of_Z 1) (n_add (of_Z 1) (n_abs x))) (of_Z 1)
  else n_sub (of_Z 1) (n_div (of_Z 1) (n_add (of_Z 1) (n_abs x))).

Definition standin_erfinv (g : F) : F :=
  n_div g (n_sub (of_Z 1) (n_abs g)).

Definition standin_norm_cdf (x : F) : F :=
  n_div (n_add (of_Z 1) (standin_erf x)) (of_Z 2).

Definition standin_norm_ppf (p : F) : F :=
  standin_erfinv (n_sub (n_mul (of_Z 2) p) (of_Z 1)).

Definition standin_exp (x : F) : F := n_add (of_Z 1) x.
Definition standin_log (x : F) : F := n_sub x (of_Z 1).

Definition standin : Special F := {|
  erf := standin_erf;
  erfinv := standin_erfinv;
  np_exp := standin_exp;
  np_log := standin_log;
  norm_cdf := standin_norm_cdf;
  norm_ppf := standin_norm_ppf;
  lognorm_cdf := fun x s scale =>
    nd_map standin_norm_cdf (nd_map standin_log (x / scale) / s)%nd;
  lognorm_mean := fun s scale =>
    (scale * nd_map standin_exp (nd_sqr s / Scalar (of_Z 2)))%nd;
  lognorm_median := fun s scale => scale;
  lognorm_var := fun s scale =>
    ((nd_map standin_exp (nd_sqr s) - Scalar (of_Z 1))
     * nd_map standin_exp (nd_sqr s) * nd_sqr scale)%nd;
  lognorm_std := fun s scale =>
    (nd_root (nd_map standin_exp (nd_sqr s) - Scalar (of_Z 1))
     * nd_map standin_exp (nd_sqr s / Scalar (of_Z 2)) * scale)%nd
|}.
End Standin.

(* ===================================================================== *)
(** * Example instances *)

(** [LogNormal(inc=100, mean=False, gini=0.4)], the median example of the
    specification, and [LogNormal(gini=1.5)], whose Gini is outside (0, 1);
    each on a store that holds nothing else. The instance is object 1. *)
Definition median_example : kwargs float :=
  [("inc", VNum 100%float); ("mean", VBool false); ("gini", VNum 0.4%float)]%string.

Definition wild_example : kwargs float := [("gini", VNum 1.5%float)]%string.


(** Fields passed to [update]: gini is set in the median example, theil is
    not. *)
Definition fill_example : kwargs float :=
  [("gini", VNum 0.5%float); ("theil", VNum 0.2%float)]%string.

Definition store_of (kw : kwargs float) : heap float := (LogNormal_new kw ∅).1.



(** A small and a large Gini, and standard deviations of either sign. *)
Definition small_gini_example : R := (1 / 100)%R.
Definition large_gini_example : R := (2 / 3)%R.
Definition signed_std_examples : nd R := Array [-2; 0; 3]%R.
Definition positive_std_examples : nd R := Array [1 / 2; 3]%R.
(* ===================================================================== *)
(** * What the methods do to the store *)

Section MonadFacts.
Context {F A B : Type}.
Implicit Types (m : M F A) (k : A -> M F B) (h : heap F).

Lemma bind_OK m k h h' a : m h = (h', OK a) -> bind m k h = k a h'.
Proof. intros E. unfold bind. by rewrite E. Qed.

Lemma bind_Raise m k h h' e : m h = (h', Raise e) -> bind m k h = (h', Raise e).
Proof. intros E. unfold bind. by rewrite E. Qed.

Lemma bind_ret a k h : bind (ret a) k h = k a h.
Proof. reflexivity. Qed.

Lemma bind_raise e k h : bind (raise e : M F A) k h = (h, Raise e).
Proof. reflexivity. Qed.

Lemma bind_assoc {C} (n : M F C) (f : C -> M F A) k h :
  bind (bind n f) k h = bind n (fun c => bind (f c) k) h.
Proof. unfold bind. destruct (n h) as [h' [c|e]]; reflexivity. Qed.

Lemma bind_if (c : bool) m m' k h :
  bind (if c then m else m') k h = if c then bind m k h else bind m' k h.
Proof. by destruct c. Qed.
End MonadFacts.

Section StoreFacts.
Context {F : Type}.
Implicit Types (h : heap F) (o : attrs F) (l x : loc) (k : string).

Lemma get_obj_Some h l o : h !! l = Some o -> get_obj l h = (h, OK o).
Proof. intros E. unfold get_obj. by rewrite E. Qed.

Lemma get_obj_None h l : h !! l = None -> get_obj l h = (h, Raise Dangling).
Proof. intros E. unfold get_obj. by rewrite E. Qed.

Lemma getattr_default_Some h x o k :
  h !! x = Some o -> getattr_default x k h = (h, OK (default VNone (o !! k))).
Proof. intros E. unfold getattr_default. by rewrite (bind_OK _ _ _ _ _ (get_obj_Some _ _ _ E)). Qed.

Lemma getattr_Some h x o k v :
  h !! x = Some o -> o !! k = Some v -> getattr x k h = (h, OK v).
Proof.
  intros E Ek. unfold getattr.
  rewrite (bind_OK _ _ _ _ _ (get_obj_Some _ _ _ E)). by rewrite Ek.
Qed.

Lemma setattr_Some h x o k v :
  h !! x = Some o -> setattr x k v h = (<[x := <[k := v]> o]> h, OK tt).
Proof. intros E. unfold setattr. by rewrite (bind_OK _ _ _ _ _ (get_obj_Some _ _ _ E)). Qed.

Lemma deepcopy_Some h x o :
  h !! x = Some o -> deepcopy x h = (<[fresh (dom h) := o]> h, OK (fresh (dom h))).
Proof. intros E. unfold deepcopy. by rewrite (bind_OK _ _ _ _ _ (get_obj_Some _ _ _ E)). Qed.

Lemma fresh_not_live h : h !! fresh (dom h) = None.
Proof. apply not_elem_of_dom, is_fresh. Qed.

Lemma fresh_ne h l o : h !! l = Some o -> l <> fresh (dom h).
Proof. intros E ->. by rewrite fresh_not_live in E. Qed.
End StoreFacts.

Section UpdateFacts.
Context {F : Type} {N : Number F}.
Implicit Types (h : heap F) (o : attrs F) (l x : loc) (k : string) (kw : kwargs F).

Lemma update_loop_Some kw : forall h x o override,
  h !! x = Some o ->
  update_loop x override kw h = (<[x := apply_fields override kw o]> h, OK tt).
Proof.
  induction kw as [|[k v] kw IH]; intros h x o override E; simpl.
  - unfold ret. by rewrite insert_id.
  - assert (Hset : forall o', apply_field override o (k, v) = o' ->
              (setattr x k v;; update_loop x override kw) h
              = (<[x := apply_fields override kw (<[k := v]> o)]> h, OK tt)).
    { intros _ _.
      rewrite (bind_OK _ _ _ _ _ (setattr_Some _ _ _ k v E)).
      rewrite (IH _ x (<[k := v]> o)) by apply lookup_insert_eq.
      by rewrite insert_insert_eq. }
    unfold apply_field; simpl. destruct override; simpl.
    + rewrite (bind_OK _ _ h h true) by done. by eapply Hset.
    + rewrite (bind_OK _ _ h h (is_None (default VNone (o !! k)))).
      2:{ by rewrite (bind_OK _ _ _ _ _ (getattr_default_Some _ _ _ k E)). }
      destruct (is_None (default VNone (o !! k))).
      * by eapply Hset.
      * rewrite (bind_OK _ _ h h tt) by done. by apply IH.
Qed.

Lemma update_inplace h self o override kw :
  h !! self = Some o ->
  update self false override kw h
  = (<[self := apply_fields override kw o]> h, OK self).
Proof.
  intros E. unfold update.
  rewrite (bind_OK _ _ h h self) by done.
  by rewrite (bind_OK _ _ _ _ _ (update_loop_Some kw _ _ _ override E)).
Qed.

Lemma update_copy h self o override kw :
  h !! self = Some o ->
  update self true override kw h
  = (<[fresh (dom h) := apply_fields override kw o]> h, OK (fresh (dom h))).
Proof.
  intros E. unfold update.
  rewrite (bind_OK _ _ _ _ _ (deepcopy_Some _ _ _ E)).
  rewrite (bind_OK _ _ _ _ tt (update_loop_Some kw _ _ o override (lookup_insert_eq _ _ _))).
  by rewrite insert_insert_eq.
Qed.

Lemma update_Dangling h self copy override kw :
  h !! self = None -> kw <> [] \/ copy = true ->
  update self copy override kw h = (h, Raise Dangling).
Proof.
  intros E Hne. unfold update. destruct copy.
  - cbv [deepcopy bind get_obj]. by rewrite E.
  - destruct Hne as [Hne|]; [|done]. destruct kw as [|[k v] kw]; [done|].
    destruct override;
      cbn [update_loop]; cbv [bind ret setattr getattr_default get_obj]; by rewrite E.
Qed.
End UpdateFacts.

Section ApplyFieldsFacts.
Context {F : Type}.
Implicit Types (o : attrs F) (k : string) (v : val F) (kw : kwargs F).

Lemma apply_fields_cons override k v kw o :
  apply_fields override ((k, v) :: kw) o
  = apply_fields override kw (apply_field override o (k, v)).
Proof. reflexivity. Qed.

Lemma apply_field_other override o k v k' :
  k <> k' -> apply_field override o (k, v) !! k' = o !! k'.
Proof.
  intros Hne. unfold apply_field; simpl.
  destruct (override || _); [by rewrite lookup_insert_ne|done].
Qed.

(** A key that is not passed keeps its value. *)
Lemma apply_fields_absent override kw : forall o k,
  k ∉ kw.*1 -> apply_fields override kw o !! k = o !! k.
Proof.
  induction kw as [|[k' v'] kw IH]; intros o k Hk; [done|].
  rewrite apply_fields_cons. simpl in Hk.
  apply not_elem_of_cons in Hk as [Hne Hk].
  rewrite IH by done. by apply apply_field_other.
Qed.

(** Without [override], a field that is set keeps its value. *)
Lemma apply_fields_keep kw : forall o k,
  is_set o k -> apply_fields false kw o !! k = o !! k.
Proof.
  induction kw as [|[k' v'] kw IH]; intros o k Hk; [done|].
  rewrite apply_fields_cons.
  assert (Hsame : apply_field false o (k', v') !! k = o !! k).
  { destruct (decide (k' = k)) as [->|Hne]; [|by apply apply_field_other].
    unfold apply_field; simpl. unfold is_set, field in Hk. by rewrite Hk. }
  rewrite IH; [done|]. unfold is_set, field. by rewrite Hsame.
Qed.

(** A passed field is stored when [override] holds or the field is unset. *)
Lemma apply_fields_stored override kw : forall o k v,
  NoDup kw.*1 -> (k, v) ∈ kw -> override = true \/ unset o k ->
  apply_fields override kw o !! k = Some v.
Proof.
  induction kw as [|[k' v'] kw IH]; intros o k v Hnd Hin Hc.
  { by apply elem_of_nil in Hin. }
  rewrite apply_fields_cons. simpl in Hnd. apply NoDup_cons in Hnd as [Hk' Hnd].
  apply elem_of_cons in Hin as [Heq|Hin].
  - injection Heq as <- <-.
    rewrite apply_fields_absent by done.
    unfold apply_field; simpl.
    destruct Hc as [->|Hu]; [|unfold unset, field in Hu; rewrite Hu, orb_true_r];
      simpl; apply lookup_insert_eq.
  - assert (Hne : k' <> k).
    { intros ->. apply Hk'. apply list_elem_of_fmap. by exists (k, v). }
    apply IH; [done..|].
    destruct Hc as [?|Hu]; [by left|right].
    unfold unset, field. by rewrite apply_field_other.
Qed.

(** No call removes an attribute, and a passed key is an attribute
    afterwards. *)
Lemma apply_fields_is_Some override kw : forall o k,
  is_Some (o !! k) -> is_Some (apply_fields override kw o !! k).
Proof.
  induction kw as [|[k' v'] kw IH]; intros o k Hk; [done|].
  rewrite apply_fields_cons. apply IH.
  unfold apply_field; simpl. destruct (override || _); [|done].
  destruct (decide (k' = k)) as [->|Hne];
    [rewrite lookup_insert_eq; eauto|by rewrite lookup_insert_ne].
Qed.

Lemma apply_fields_present override kw : forall o k,
  k ∈ kw.*1 -> is_Some (apply_fields override kw o !! k).
Proof.
  induction kw as [|[k' v'] kw IH]; intros o k Hk.
  { by apply elem_of_nil in Hk. }
  rewrite apply_fields_cons. simpl in Hk.
  apply elem_of_cons in Hk as [->|Hk]; [|by apply IH].
  apply apply_fields_is_Some. unfold apply_field; simpl.
  destruct (o !! k') as [v|] eqn:E; simpl.
  - destruct (override || _); [rewrite lookup_insert_eq|rewrite E]; eauto.
  - rewrite orb_true_r, lookup_insert_eq. eauto.
Qed.
End ApplyFieldsFacts.

Section CheckFacts.
Context {F : Type} {N : Number F}.
Implicit Types (h : heap F) (o : attrs F) (l : loc).

Lemma bind_get h l o k {B} (K : val F -> M F B) :
  h !! l = Some o -> bind (_get l k) K h = K (field o k) h.
Proof. intros E. by rewrite (bind_OK _ _ _ _ _ (getattr_default_Some _ _ _ k E)). Qed.

Lemma check_run h l o :
  h !! l = Some o ->
  check l h = (h, match check_result o with
                  | OK _ => OK l
                  | Raise e => Raise e
                  end).
Proof.
  intros E. unfold check, check_result.
  cbn [all_m check_declared].
  repeat first [rewrite bind_assoc | rewrite (bind_get _ _ _ _ _ E)
               | rewrite bind_ret | rewrite bind_if | rewrite bind_raise].
  destruct (is_None (field o "theil")), (is_None (field o "gini")),
    (is_None (field o "inc")), (is_None (field o "mean")); reflexivity.
Qed.

Lemma check_Dangling h l : h !! l = None -> check l h = (h, Raise Dangling).
Proof.
  intros E. unfold check. cbn [all_m].
  cbv [bind ret raise _get getattr_default get_obj]. by rewrite E.
Qed.

Lemma check_result_OK o : check_result o = OK tt <-> accepted o.
Proof.
  unfold check_result, accepted, is_set, unset.
  destruct (is_None (field o "theil")), (is_None (field o "gini")),
    (is_None (field o "inc")), (is_None (field o "mean")); simpl;
    (split; [intros Hc; first [discriminate Hc | naive_solver]
            | intros [[[? ?]|[? ?]] [? ?]]; first [reflexivity | discriminate]]).
Qed.
End CheckFacts.

Section ParamsFacts.
Context {F : Type} {N : Number F} {S : Special F}.
Implicit Types (h : heap F) (o data : attrs F) (l : loc) (kw : kwargs F).

Lemma bind_getattr h l o k {B} (K : val F -> M F B) :
  h !! l = Some o -> is_Some (o !! k) ->
  bind (getattr l k) K h = K (field o k) h.
Proof.
  intros E [v Ev].
  rewrite (bind_OK _ _ _ _ _ (getattr_Some _ _ _ k v E Ev)).
  unfold field. by rewrite Ev.
Qed.

Lemma bind_to_num h v {B} (K : F -> M F B) :
  is_None v = false -> bind (to_num v) K h = K (num_of v) h.
Proof. by destruct v. Qed.

Lemma effective_present o kw k :
  k ∈ ["inc"; "mean"; "gini"; "theil"]%string -> is_Some (effective o kw !! k).
Proof. intros Hk. by apply apply_fields_present. Qed.

(** [params] in one step: the store it leaves and the outcome. *)
Lemma params_run self kw h o :
  h !! init_data self = Some o ->
  params self kw h = (params_store h o kw, params_result (effective o kw)).
Proof.
  intros E. unfold params, add_defaults.
  rewrite (bind_OK _ _ _ _ _ (update_copy _ _ _ true kw E)).
  set (h1 := <[fresh (dom h) := apply_fields true kw o]> h).
  assert (E1 : h1 !! fresh (dom h) = Some (apply_fields true kw o))
    by apply lookup_insert_eq.
  cbn beta. rewrite (bind_OK _ _ _ _ _ (update_copy _ _ _ false defaults E1)).
  cbn beta. fold (effective o kw).
  change (params_store h o kw) with (<[fresh (dom h1) := effective o kw]> h1).
  set (data := effective o kw). set (h2 := <[fresh (dom h1) := data]> h1).
  assert (E2 : h2 !! fresh (dom h1) = Some data) by apply lookup_insert_eq.
  unfold params_result.
  destruct (check_result data) as [[]|e] eqn:Ec.
  2:{ apply bind_Raise. by rewrite (check_run _ _ _ E2), Ec. }
  rewrite (bind_OK _ _ h2 h2 (fresh (dom h1))) by by rewrite (check_run _ _ _ E2), Ec.
  cbn beta. apply check_result_OK in Ec as (Hm & Hinc & Hmean).
  assert (Hp : forall k, k ∈ ["inc"; "mean"; "gini"; "theil"]%string ->
                         is_Some (data !! k)) by (intros; by apply effective_present).
  rewrite (bind_getattr _ _ _ "theil" _ E2) by (apply Hp; repeat constructor).
  unfold shape_of, scale_of.
  assert (Hshape : forall B (K : nd F -> M F B),
    bind (if is_None (field data "theil")
          then g <- getattr (fresh (dom h1)) "gini";; g0 <- to_num g;;
               ret (gini_to_std (Scalar g0))
          else t <- to_num (field data "theil");; ret (theil_to_std (Scalar t)))
         K h2
    = K (if is_None (field data "theil")
         then gini_to_std (Scalar (num_of (field data "gini")))
         else theil_to_std (Scalar (num_of (field data "theil")))) h2).
  { intros B K. destruct (is_None (field data "theil")) eqn:Et.
    - rewrite bind_assoc, (bind_getattr _ _ _ "gini" _ E2) by (apply Hp; repeat constructor).
      rewrite bind_assoc, bind_to_num; [by rewrite bind_ret|].
      destruct Hm as [[? ?]|[? Hs]]; [done|]. unfold is_set in Hs. congruence.
    - rewrite bind_assoc, bind_to_num by done. by rewrite bind_ret. }
  rewrite Hshape.
  rewrite (bind_getattr _ _ _ "mean" _ E2) by (apply Hp; repeat constructor).
  destruct (truthy (field data "mean")).
  - rewrite bind_assoc, (bind_getattr _ _ _ "inc" _ E2) by (apply Hp; repeat constructor).
    rewrite bind_assoc, bind_to_num by done. by rewrite !bind_ret.
  - rewrite bind_assoc, (bind_getattr _ _ _ "inc" _ E2) by (apply Hp; repeat constructor).
    rewrite bind_assoc, bind_to_num by done. by rewrite !bind_ret.
Qed.

End ParamsFacts.

(* ===================================================================== *)
(** * The configuration object *)

Section UpdateSpec.
Context {F : Type}.
Implicit Types (h : heap F) (o : attrs F) (l x : loc) (kw : kwargs F).


End UpdateSpec.

(* ===================================================================== *)
(** * Validation *)

Section LogNormalFacts.
Context {F : Type} {N : Number F} {S : Special F}.
Implicit Types (h : heap F) (o data : attrs F) (l : loc) (kw : kwargs F)
  (self : LogNormal) (q : query F).

Lemma LogNormal_new_run kw h :
  LogNormal_new kw h
  = (<[fresh (dom h) := apply_fields true kw ∅]> h, OK {| init_data := fresh (dom h) |}).
Proof.
  unfold LogNormal_new, LogNormalData_new, AttrObject_init.
  rewrite !bind_assoc. unfold alloc at 1.
  rewrite (bind_OK _ _ h (<[fresh (dom h) := ∅]> h) (fresh (dom h))) by done.
  cbn beta. rewrite !bind_assoc.
  rewrite (bind_OK _ _ _ _ _ (update_inplace _ _ ∅ true kw (lookup_insert_eq _ _ _))).
  cbn beta. rewrite !bind_ret. by rewrite insert_insert_eq.
Qed.

(** Every query is [params] followed by a function of the derived pair. *)
Lemma call_run self q kw h :
  call self q kw h
  = ((params self kw h).1,
     match (params self kw h).2 with
     | OK p => OK (query_answer q p)
     | Raise e => Raise e
     end).
Proof.
  destruct q; unfold call, ppf, cdf, lorenz, mean, median, var, std;
    rewrite ?bind_assoc; unfold bind at 1;
    destruct (params self kw h) as [h' [[shape scale]|e]]; reflexivity.
Qed.

Lemma call_params_run self q kw h o :
  h !! init_data self = Some o ->
  call self q kw h
  = (params_store h o kw,
     match params_result (effective o kw) with
     | OK p => OK (query_answer q p)
     | Raise e => Raise e
     end).
Proof. intros E. by rewrite call_run, (params_run _ _ _ _ E). Qed.


(** C4: [check] raises a ValueError that names the invariant that is
    violated: one message when neither gini nor theil is set, another when
    both are, and "Must declare value for" followed by the field when inc or
    mean is unset; it returns exactly when one of gini and theil is set and
    inc and mean are set. So the first query on [LogNormal(gini=0.3,
    theil=0.2)] and on [LogNormal()] raises. *)
Theorem check_validation :
  (forall h l o, h !! l = Some o ->
     (unset o "theil" -> unset o "gini" ->
      check l h = (h, Raise (ValueError "Must use either theil or gini")))
     /\ (is_set o "theil" -> is_set o "gini" ->
         check l h = (h, Raise (ValueError "Cannot use both theil and gini")))
     /\ (is_set o "theil" /\ unset o "gini" \/ unset o "theil" /\ is_set o "gini" ->
         unset o "inc" ->
         check l h = (h, Raise (ValueError "Must declare value for inc")))
     /\ (is_set o "theil" /\ unset o "gini" \/ unset o "theil" /\ is_set o "gini" ->
         is_set o "inc" -> unset o "mean" ->
         check l h = (h, Raise (ValueError "Must declare value for mean")))
     /\ (check l h = (h, OK l) <-> accepted o))
  /\ (forall h q,
        ((self <- LogNormal_new [("gini", VNum (dec 3 10)); ("theil", VNum (dec 2 10))]%string ;;
          call self q []) h).2
        = Raise (ValueError "Cannot use both theil and gini"))
  /\ (forall h q,
        ((self <- LogNormal_new [] ;; call self q []) h).2
        = Raise (ValueError "Must use either theil or gini")).
Proof.
  split; [|split].
  - intros h l o E. rewrite (check_run _ _ _ E).
    rewrite <- check_result_OK.
    unfold check_result, unset, is_set.
    destruct (is_None (field o "theil")), (is_None (field o "gini")),
      (is_None (field o "inc")), (is_None (field o "mean")); simpl;
      repeat split; try done; try (intros [[? ?]|[? ?]]; done);
      intros; simplify_eq.
  - intros h q. rewrite (bind_OK _ _ _ _ _ (LogNormal_new_run _ h)).
    by erewrite call_params_run by apply lookup_insert_eq.
  - intros h q. rewrite (bind_OK _ _ _ _ _ (LogNormal_new_run _ h)).
    by erewrite call_params_run by apply lookup_insert_eq.
Qed.
End LogNormalFacts.

(* ===================================================================== *)
(** * The derivation of shape and scale *)

Section ParamsSpec.
Context {F : Type} {N : Number F} {S : Special F}.
Implicit Types (h : heap F) (o data : attrs F) (l : loc) (kw : kwargs F)
  (self : LogNormal) (q : query F).




(** ** Queries leave the baseline alone *)







(** C7: [ppf] returns what [cdf] returns, on every store, for all overrides
    and every [x]: the log-normal cumulative distribution function at the
    pair [params] derives (and the exception of [params] when it raises). *)
Theorem ppf_is_cdf self (x : nd F) kw h :
  ppf self x kw h = cdf self x kw h
  /\ cdf self x kw h
     = ((params self kw h).1,
        match (params self kw h).2 with
        | OK (shape, scale) => OK (lognorm_cdf x shape scale)
        | Raise e => Raise e
        end).
Proof.
  split; [reflexivity|].
  unfold cdf, bind.
  destruct (params self kw h) as [h' [[shape scale]|e]]; reflexivity.
Qed.
End ParamsSpec.

(* ===================================================================== *)
(** * Arrays: the conversions act elementwise *)

Section NdFacts.
Context {A B C : Type}.

Lemma nd_zip_Scalar_l (f : A -> B -> C) a y :
  nd_zip f (Scalar a) y = nd_map (f a) y.
Proof. by destruct y. Qed.

Lemma nd_zip_Scalar_r (f : A -> B -> C) x b :
  nd_zip f x (Scalar b) = nd_map (fun a => f a b) x.
Proof. by destruct x. Qed.

Lemma nd_map_map (f : B -> C) (g : A -> B) x :
  nd_map f (nd_map g x) = nd_map (fun a => f (g a)) x.
Proof. destruct x; simpl; [done|]. by rewrite List.map_map. Qed.

Lemma zip_with_map_same {D} (f : B -> C -> D) (g : A -> B) (k : A -> C) l :
  zip_with f (map g l) (map k l) = map (fun a => f (g a) (k a)) l.
Proof. induction l as [|a l IH]; simpl; [done|]. by rewrite IH. Qed.

Lemma nd_zip_map_same {D} (f : B -> C -> D) (g : A -> B) (k : A -> C) x :
  nd_zip f (nd_map g x) (nd_map k x) = nd_map (fun a => f (g a) (k a)) x.
Proof. destruct x; simpl; [done|]. by rewrite zip_with_map_same. Qed.

Lemma nd_map_ext_Forall (f g : A -> B) x :
  nd_Forall (fun a => f a = g a) x -> nd_map f x = nd_map g x.
Proof.
  destruct x as [a|l]; simpl; [by intros ->|].
  intros Hl. f_equal. induction Hl as [|a l Ha _ IH]; simpl; [done|].
  by rewrite Ha, IH.
Qed.

Lemma nd_map_id_Forall (f : A -> A) x :
  nd_Forall (fun a => f a = a) x -> nd_map f x = x.
Proof.
  destruct x as [a|l]; simpl; [by intros ->|].
  intros Hl. f_equal. induction Hl as [|a l Ha _ IH]; simpl; [done|].
  by rewrite Ha, IH.
Qed.

Lemma nd_Forall_map (P : B -> Prop) (f : A -> B) x :
  nd_Forall P (nd_map f x) <-> nd_Forall (fun a => P (f a)) x.
Proof.
  destruct x as [a|l]; simpl; [done|].
  induction l as [|a l IH]; simpl; [by split; constructor|].
  split; intros Hl; inversion_clear Hl; constructor; tauto.
Qed.

Lemma nd_Forall_impl (P Q : A -> Prop) x :
  nd_Forall P x -> (forall a, P a -> Q a) -> nd_Forall Q x.
Proof. destruct x; simpl; [auto|]. apply Forall_impl. Qed.

Lemma nd_Forall_and (P Q : A -> Prop) x :
  nd_Forall (fun a => P a /\ Q a) x <-> nd_Forall P x /\ nd_Forall Q x.
Proof. destruct x; simpl; [done|]. apply Forall_and. Qed.

Lemma np_all_map (p : A -> bool) x :
  np_all (nd_map p x) = true <-> nd_Forall (fun a => p a = true) x.
Proof.
  destruct x as [a|l]; simpl; [done|].
  induction l as [|a l IH]; simpl; [by split; [constructor|]|].
  rewrite andb_true_iff, IH. split.
  - intros [? ?]. by constructor.
  - intros Hl. by inversion_clear Hl.
Qed.
End NdFacts.

Section ConversionShapes.
Context {F : Type} {N : Number F} {S : Special F}.
Implicit Types (g s t x : nd F).

Lemma gini_to_std_map g : gini_to_std g = nd_map gini_to_std_at g.
Proof. unfold gini_to_std, nd_mul. by rewrite nd_zip_Scalar_l, nd_map_map. Qed.

Lemma std_to_gini_map s : std_to_gini s = nd_map std_to_gini_at s.
Proof. unfold std_to_gini, nd_mul. by rewrite nd_zip_Scalar_l, nd_map_map. Qed.

Lemma theil_to_std_map t : theil_to_std t = nd_map theil_to_std_at t.
Proof.
  unfold theil_to_std, nd_root, nd_mul. by rewrite nd_zip_Scalar_l, nd_map_map.
Qed.

Lemma std_to_theil_map s : std_to_theil s = nd_map std_to_theil_at s.
Proof.
  unfold std_to_theil, nd_sqr, nd_div. by rewrite nd_zip_Scalar_r, nd_map_map.
Qed.

Lemma in_unit_all x :
  np_all (x >? Scalar (of_Z 0))%nd && np_all (x <? Scalar (of_Z 1))%nd = true
  <-> nd_Forall (fun a => in_unit a = true) x.
Proof.
  unfold nd_gt, nd_lt. rewrite !nd_zip_Scalar_r, andb_true_iff, !np_all_map.
  rewrite <- nd_Forall_and. unfold in_unit.
  split; intros Hx; eapply nd_Forall_impl; eauto; simpl; intros a;
    by rewrite andb_true_iff.
Qed.

Lemma in_theil_all x :
  np_all (x <? Scalar MAX_THEIL)%nd && np_all (x >? Scalar (of_Z 0))%nd = true
  <-> nd_Forall (fun a => in_theil a = true) x.
Proof.
  unfold nd_gt, nd_lt. rewrite !nd_zip_Scalar_r, andb_true_iff, !np_all_map.
  rewrite <- nd_Forall_and. unfold in_theil.
  split; intros Hx; eapply nd_Forall_impl; eauto; simpl; intros a;
    by rewrite andb_true_iff.
Qed.

Lemma unquad_map t :
  (let '(a, b, c) := theil_empirical_constants in
   ((Scalar (n_neg b)
     + nd_root (Scalar (n_sqr b) - Scalar (n_mul (of_Z 4) a) * (Scalar c - t)))
    / Scalar (n_mul (of_Z 2) a))%nd)
  = nd_map unquad t.
Proof.
  unfold unquad. destruct theil_empirical_constants as [[a b] c].
  unfold nd_add, nd_sub, nd_mul, nd_div, nd_root.
  by rewrite !nd_zip_Scalar_l, nd_zip_Scalar_r, !nd_map_map.
Qed.

Lemma quad_map t :
  (let '(a, b, c) := theil_empirical_constants in
   (Scalar a * nd_sqr t + Scalar b * t + Scalar c)%nd)
  = nd_map quad t.
Proof.
  unfold quad. destruct theil_empirical_constants as [[a b] c].
  unfold nd_add, nd_sub, nd_mul, nd_div, nd_sqr.
  rewrite !nd_zip_Scalar_l, nd_zip_Scalar_r, !nd_map_map.
  by rewrite nd_zip_map_same, nd_map_map.
Qed.

(** [gini_to_theil] is its two checks around an elementwise map. *)
Lemma gini_to_theil_OK g empirical :
  nd_Forall (fun a => in_unit a = true) g ->
  nd_Forall (fun a => in_theil (gini_to_theil_at empirical a) = true) g ->
  gini_to_theil g empirical = OK (nd_map (gini_to_theil_at empirical) g).
Proof.
  intros Hg Ht. unfold gini_to_theil.
  apply in_unit_all in Hg. rewrite Hg. cbn [negb]. cbv zeta.
  rewrite gini_to_std_map, std_to_theil_map, nd_map_map.
  assert (Hmap : (if empirical
           then let '(a, b, c) := theil_empirical_constants in
             ((Scalar (n_neg b)
               + nd_root (Scalar (n_sqr b)
                          - Scalar (n_mul (of_Z 4) a)
                            * (Scalar c - nd_map (fun a0 => std_to_theil_at (gini_to_std_at a0)) g)))
              / Scalar (n_mul (of_Z 2) a))%nd
           else nd_map (fun a => std_to_theil_at (gini_to_std_at a)) g)
          = nd_map (gini_to_theil_at empirical) g).
  { unfold gini_to_theil_at. destruct empirical; [|done].
    by rewrite unquad_map, nd_map_map. }
  rewrite Hmap.
  apply (proj2 (nd_Forall_map (fun a => in_theil a = true) _ g)) in Ht.
  apply in_theil_all in Ht. by rewrite Ht.
Qed.

Lemma gini_to_theil_inv g empirical t :
  gini_to_theil g empirical = OK t ->
  nd_Forall (fun a => in_unit a = true) g
  /\ nd_Forall (fun a => in_theil (gini_to_theil_at empirical a) = true) g
  /\ t = nd_map (gini_to_theil_at empirical) g.
Proof.
  intros Hr.
  assert (Hg : nd_Forall (fun a => in_unit a = true) g).
  { apply in_unit_all. unfold gini_to_theil in Hr.
    by destruct (np_all _ && np_all _). }
  assert (Ht : nd_Forall (fun a => in_theil (gini_to_theil_at empirical a) = true) g).
  { apply (proj1 (nd_Forall_map (fun a => in_theil a = true) _ g)), in_theil_all.
    unfold gini_to_theil in Hr.
    pose proof Hg as Hg'. apply in_unit_all in Hg'. rewrite Hg' in Hr.
    cbn [negb] in Hr. cbv zeta in Hr.
    rewrite gini_to_std_map, std_to_theil_map, nd_map_map in Hr.
    unfold gini_to_theil_at.
    destruct empirical.
    - rewrite unquad_map, nd_map_map in Hr.
      by destruct (np_all _ && np_all _).
    - by destruct (np_all _ && np_all _). }
  split; [done|]. split; [done|].
  rewrite (gini_to_theil_OK _ _ Hg Ht) in Hr. by injection Hr.
Qed.

Lemma theil_to_gini_OK t empirical :
  nd_Forall (fun a => in_theil a = true) t ->
  nd_Forall (fun a => in_unit (theil_to_gini_at empirical a) = true) t ->
  theil_to_gini t empirical = OK (nd_map (theil_to_gini_at empirical) t).
Proof.
  intros Ht Hg. unfold theil_to_gini.
  apply in_theil_all in Ht. rewrite Ht. cbn [negb]. cbv zeta.
  assert (Hmap : std_to_gini (theil_to_std
            (if empirical
             then let '(a, b, c) := theil_empirical_constants in
               (Scalar a * nd_sqr t + Scalar b * t + Scalar c)%nd
             else t))
          = nd_map (theil_to_gini_at empirical) t).
  { unfold theil_to_gini_at. rewrite std_to_gini_map, theil_to_std_map, nd_map_map.
    destruct empirical; [|done]. by rewrite quad_map, nd_map_map. }
  rewrite Hmap.
  apply (proj2 (nd_Forall_map (fun a => in_unit a = true) _ t)) in Hg.
  apply in_unit_all in Hg. by rewrite Hg.
Qed.

Lemma gini_to_theil_Raise g empirical :
  ~ nd_Forall (fun a => in_unit a = true) g ->
  gini_to_theil g empirical = Raise (ValueError "Gini not within (0, 1)").
Proof.
  intros Hg. unfold gini_to_theil.
  destruct (np_all _ && np_all _) eqn:E; [|done].
  by apply in_unit_all in E.
Qed.

Lemma theil_to_gini_Raise t empirical :
  ~ nd_Forall (fun a => in_theil a = true) t ->
  theil_to_gini t empirical = Raise (ValueError "Theil not within (0, 2.88)").
Proof.
  intros Ht. unfold theil_to_gini.
  destruct (np_all _ && np_all _) eqn:E; [|done].
  by apply in_theil_all in E.
Qed.
(** A derived result outside its interval raises as well. *)
Lemma gini_to_theil_Raise_result g empirical :
  nd_Forall (fun a => in_unit a = true) g ->
  ~ nd_Forall (fun a => in_theil (gini_to_theil_at empirical a) = true) g ->
  gini_to_theil g empirical = Raise (ValueError "Theil not within (0, 2.88)").
Proof.
  intros Hg Ht. destruct (gini_to_theil g empirical) as [t|e] eqn:Hr.
  - by apply gini_to_theil_inv in Hr as (_ & Ht' & _).
  - unfold gini_to_theil in Hr. apply in_unit_all in Hg. rewrite Hg in Hr.
    cbn [negb] in Hr. cbv zeta in Hr.
    destruct (negb _) in Hr; [by injection Hr as <-|discriminate].
Qed.

Lemma theil_to_gini_inv t empirical g :
  theil_to_gini t empirical = OK g ->
  nd_Forall (fun a => in_theil a = true) t
  /\ nd_Forall (fun a => in_unit (theil_to_gini_at empirical a) = true) t
  /\ g = nd_map (theil_to_gini_at empirical) t.
Proof.
  intros Hr.
  assert (Ht : nd_Forall (fun a => in_theil a = true) t).
  { apply in_theil_all. unfold theil_to_gini in Hr.
    by destruct (np_all _ && np_all _). }
  assert (Hg : nd_Forall (fun a => in_unit (theil_to_gini_at empirical a) = true) t).
  { apply (proj1 (nd_Forall_map (fun a => in_unit a = true) _ t)), in_unit_all.
    unfold theil_to_gini in Hr.
    pose proof Ht as Ht'. apply in_theil_all in Ht'. rewrite Ht' in Hr.
    cbn [negb] in Hr. cbv zeta in Hr.
    rewrite std_to_gini_map, theil_to_std_map, nd_map_map in Hr.
    unfold theil_to_gini_at.
    destruct empirical.
    - rewrite quad_map, nd_map_map in Hr.
      by destruct (np_all _ && np_all _).
    - by destruct (np_all _ && np_all _). }
  split; [done|]. split; [done|].
  rewrite (theil_to_gini_OK _ _ Ht Hg) in Hr. by injection Hr.
Qed.

Lemma theil_to_gini_Raise_result t empirical :
  nd_Forall (fun a => in_theil a = true) t ->
  ~ nd_Forall (fun a => in_unit (theil_to_gini_at empirical a) = true) t ->
  theil_to_gini t empirical = Raise (ValueError "Gini not within (0, 1)").
Proof.
  intros Ht Hg. destruct (theil_to_gini t empirical) as [g|e] eqn:Hr.
  - by apply theil_to_gini_inv in Hr as (_ & Hg' & _).
  - unfold theil_to_gini in Hr. apply in_theil_all in Ht. rewrite Ht in Hr.
    cbn [negb] in Hr. cbv zeta in Hr.
    destruct (negb _) in Hr; [by injection Hr as <-|discriminate].
Qed.
End ConversionShapes.

(* ===================================================================== *)
(** * The conversions in exact arithmetic *)

Section RealArithmetic.
Local Open Scope R_scope.
Local Abbreviation sqrt := R_sqrt.sqrt.

Lemma Rltb_true x y : Rltb x y = true <-> x < y.
Proof. unfold Rltb. destruct (Rlt_dec x y); split; (done || lra). Qed.




(** ... and is the argument again on the increasing branch. *)
Lemma root_of_quadratic a b c t :
  0 < a -> 0 <= 2 * a * t + b ->
  (- b + sqrt (b * b - 4 * a * (c - (a * (t * t) + b * t + c)))) / (2 * a) = t.
Proof.
  intros Ha Hb.
  replace (b * b - 4 * a * (c - (a * (t * t) + b * t + c)))
    with ((2 * a * t + b) * (2 * a * t + b)) by ring.
  rewrite sqrt_square by done. field. lra.
Qed.
End RealArithmetic.

Section RealConversions.
Context {S : Special R}.
Local Open Scope R_scope.

Lemma in_unit_R x : in_unit x = true <-> 0 < x < 1.
Proof.
  unfold in_unit, n_gt. cbn [n_lt of_Z R_Number].
  rewrite andb_true_iff, !Rltb_true. tauto.
Qed.

Lemma in_theil_R x : in_theil x = true <-> 0 < x < MAX_THEIL.
Proof.
  unfold in_theil, n_gt. cbn [n_lt of_Z R_Number].
  rewrite andb_true_iff, !Rltb_true. tauto.
Qed.

Lemma MAX_THEIL_R : MAX_THEIL = 6.64.
Proof. unfold MAX_THEIL, dec. cbn [n_div of_Z R_Number]. lra. Qed.




Lemma double_of_half (y : R) : n_mul (of_Z 2) (n_mul (dec 5 10) y) = y.
Proof. unfold dec. cbn [n_div n_mul of_Z R_Number]. lra. Qed.



Lemma unquad_quad t : 0 <= t -> unquad (quad t) = t.
Proof.
  intros Ht. unfold quad, unquad, theil_empirical_constants, dec.
  cbn [n_add n_sub n_mul n_div n_neg n_sqr n_root of_Z R_Number].
  apply root_of_quadratic; lra.
Qed.

Lemma quad_pos t : 0 < t -> 0 < quad t.
Proof.
  intros Ht. unfold quad, theil_empirical_constants, dec.
  cbn [n_add n_sub n_mul n_div n_neg n_sqr n_root of_Z R_Number]. nra.
Qed.
(** In exact arithmetic: every number outside the open interval raises. *)
Lemma gini_to_theil_outside (g : R) empirical :
  ~ 0 < g < 1 ->
  gini_to_theil (Scalar g) empirical = Raise (ValueError "Gini not within (0, 1)").
Proof. intros Hg. apply gini_to_theil_Raise. simpl. by rewrite in_unit_R. Qed.

Lemma theil_to_gini_outside (t : R) empirical :
  ~ 0 < t < MAX_THEIL ->
  theil_to_gini (Scalar t) empirical = Raise (ValueError "Theil not within (0, 2.88)").
Proof. intros Ht. apply theil_to_gini_Raise. simpl. by rewrite in_theil_R. Qed.
End RealConversions.

Section RoundTrips.
Context {S : Special R}.
Local Open Scope R_scope.

(** What the proofs use of scipy's erf and erfinv: they are inverse to each
    other on the arguments that occur, erfinv is positive on (0, 1) and erf
    maps the positive numbers into (0, 1). *)
Hypothesis erf_erfinv : forall g, 0 < g < 1 -> erf (erfinv g) = g.
Hypothesis erfinv_pos : forall g, 0 < g < 1 -> 0 < erfinv g.
Hypothesis erfinv_erf : forall x, 0 < x -> erfinv (erf x) = x.
Hypothesis erf_unit : forall x, 0 < x -> 0 < erf x < 1.







End RoundTrips.

(* ===================================================================== *)
(** * The conversions and the Lorenz curve on binary64 *)

Section FloatFacts.



Context {S : Special float}.
Implicit Types (h : heap float) (kw : kwargs float) (self : LogNormal).

(** The values of scipy's [norm.ppf] and [norm.cdf] at the ends. *)
Hypothesis norm_ppf_0 : norm_ppf 0%float = neg_infinity.
Hypothesis norm_ppf_1 : norm_ppf 1%float = infinity.
Hypothesis norm_cdf_neg_infinity : norm_cdf neg_infinity = 0%float.
Hypothesis norm_cdf_infinity : norm_cdf infinity = 1%float.


(** With an infinite shape the difference is NaN at the upper end. *)
Lemma lorenz_infinite_shape self kw h h' (scale : nd float) :
  params self kw h = (h', OK (Scalar infinity, scale)) ->
  lorenz self (Scalar 1%float) kw h = (h', OK (Scalar (norm_cdf nan))).
Proof using norm_ppf_1.
  intros Hp. unfold lorenz. rewrite (bind_OK _ _ _ _ _ Hp).
  cbn [nd_map nd_sub nd_zip n_sub float_Number]. by rewrite norm_ppf_1.
Qed.

(** C3: at t = 10 [theil_to_gini] raises, and the message is "Theil not
    within (0, 2.88)", although the bound it has just tested is MAX_THEIL =
    6.64 and t = 3 passes that test: the message does not name
    (0, MAX_THEIL). The Gini message does name (0, 1), and each of the
    inputs the specification lists raises. *)
Theorem theil_message_names_2_88 :
  theil_to_gini (Scalar 10%float) false
  = Raise (ValueError "Theil not within (0, 2.88)")
  /\ MAX_THEIL = 6.64%float
  /\ in_theil 3%float = true
  /\ Forall (fun t => forall empirical,
               theil_to_gini (Scalar t) empirical
               = Raise (ValueError "Theil not within (0, 2.88)"))
       [0; 6.64; 10]%float
  /\ Forall (fun g => forall empirical,
               gini_to_theil (Scalar g) empirical
               = Raise (ValueError "Gini not within (0, 1)"))
       [0; 1; 1.5; -0.1]%float
  /\ gini_to_theil (Array [0.5; 1.5]%float) false
     = Raise (ValueError "Gini not within (0, 1)")
  /\ theil_to_gini (Array [0.5; 6.64]%float) false
     = Raise (ValueError "Theil not within (0, 2.88)").
Proof.
  repeat split; repeat constructor; intros; reflexivity.
Qed.
End FloatFacts.

(* ===================================================================== *)
(** * The stand-in has the assumed properties *)

Section StandinReal.
Local Open Scope R_scope.

Lemma Rltb_false x y : ~ x < y -> Rltb x y = false.
Proof. intros Hxy. unfold Rltb. by destruct (Rlt_dec x y). Qed.

Lemma standin_erf_nonneg (x : R) : 0 <= x -> standin_erf x = 1 - 1 / (1 + x).
Proof.
  intros Hx. unfold standin_erf, n_abs.
  cbn [n_lt n_sub n_div n_add n_neg of_Z R_Number].
  by rewrite Rltb_false by lra.
Qed.

Lemma standin_erfinv_nonneg (g : R) : 0 <= g -> standin_erfinv g = g / (1 - g).
Proof.
  intros Hg. unfold standin_erfinv, n_abs.
  cbn [n_lt n_sub n_div n_add n_neg of_Z R_Number].
  by rewrite Rltb_false by lra.
Qed.



Lemma standin_erf_unit (x : R) : 0 < x -> 0 < standin_erf x < 1.
Proof.
  intros Hx. rewrite standin_erf_nonneg by lra.
  assert (Hinv : 0 < 1 / (1 + x)) by (apply Rdiv_lt_0_compat; lra).
  assert (Hrest : 0 < x / (1 + x)) by (apply Rdiv_lt_0_compat; lra).
  assert (Hsum : 1 / (1 + x) = 1 - x / (1 + x)) by (field; lra).
  lra.
Qed.

Lemma standin_erfinv_erf (x : R) : 0 < x -> standin_erfinv (standin_erf x) = x.
Proof.
  intros Hx. pose proof (standin_erf_unit x Hx) as Hg.
  rewrite standin_erfinv_nonneg by lra.
  rewrite standin_erf_nonneg by lra. field. lra.
Qed.
End StandinReal.

(* ===================================================================== *)
(** * The theorems at the example instances *)

Section Instances.
Local Existing Instance standin.








(** [check] accepts the median example and refuses an object with both
    gini and theil (an instance of C4). *)
Lemma check_validation_witness :
  check 1%positive (store_of median_example) = (store_of median_example, OK 1%positive)
  /\ check 1%positive (store_of fill_example)
     = (store_of fill_example, Raise (ValueError "Cannot use both theil and gini")).
Proof.
  destruct (check_validation (N := float_Number) (S := standin)) as (Hc & _ & _).
  split.
  - apply (Hc (store_of median_example) 1%positive
              (apply_fields true median_example ∅) eq_refl).
    repeat split; try (left; split); reflexivity.
  - apply (Hc (store_of fill_example) 1%positive
              (apply_fields true fill_example ∅) eq_refl); reflexivity.
Defined.
End Instances.

(* ===================================================================== *)
(** * More on the configuration object *)

Section ConfigurationMore.
Context {F : Type} {N : Number F}.
Implicit Types (h : heap F) (o : attrs F) (l x : loc) (k : string) (kw : kwargs F).

Lemma field_lookup o k v : o !! k = Some v -> field o k = v.
Proof. intros E. unfold field. by rewrite E. Qed.

Lemma elem_of_keys kw k : k ∈ kw.*1 -> exists v, (k, v) ∈ kw.
Proof.
  intros Hk. apply list_elem_of_fmap in Hk as ([k' v] & -> & Hin). by exists v.
Qed.

(** Applying the same fields a second time changes nothing. *)
Lemma apply_fields_twice override kw o :
  NoDup kw.*1 ->
  apply_fields override kw (apply_fields override kw o) = apply_fields override kw o.
Proof.
  intros Hnd. apply map_eq. intros k.
  destruct (decide (k ∈ kw.*1)) as [Hk|Hk]; [|by rewrite !apply_fields_absent].
  destruct (elem_of_keys _ _ Hk) as [v Hin].
  destruct override.
  { rewrite !(apply_fields_stored true kw _ k v); auto. }
  destruct (is_None (field o k)) eqn:Ho.
  - rewrite (apply_fields_stored false kw o k v) by auto.
    destruct (is_None v) eqn:Hv.
    + apply apply_fields_stored; [done..|]. right. unfold unset.
      by rewrite (field_lookup _ _ v) by by apply apply_fields_stored; auto.
    + rewrite apply_fields_keep; [by apply apply_fields_stored; auto|].
      unfold is_set. by rewrite (field_lookup _ _ v) by by apply apply_fields_stored; auto.
  - rewrite apply_fields_keep; [done|].
    unfold is_set, field. by rewrite apply_fields_keep.
Qed.

(** X4: updating an object in place twice with the same fields leaves the
    store and the result of the first update, with [override] on or off. *)
Theorem update_twice self override kw h :
  NoDup kw.*1 ->
  (update self false override kw ;; update self false override kw) h
  = update self false override kw h.
Proof.
  intros Hnd. destruct (h !! self) as [o|] eqn:E.
  - rewrite (bind_OK _ _ _ _ _ (update_inplace _ _ _ override kw E)).
    rewrite (update_inplace _ _ (apply_fields override kw o) override kw)
      by apply lookup_insert_eq.
    rewrite (update_inplace _ _ _ override kw E).
    by rewrite insert_insert_eq, apply_fields_twice.
  - destruct kw as [|kv kw].
    + reflexivity.
    + assert (Hd : update self false override (kv :: kw) h = (h, Raise Dangling))
        by (apply update_Dangling; [done|by left]).
      by rewrite (bind_Raise _ _ _ _ _ Hd), Hd.
Qed.

Lemma NoDup_defaults : NoDup (defaults (F := F)).*1.
Proof.
  unfold defaults; simpl.
  repeat (constructor;
          [repeat (apply not_elem_of_cons; split; [discriminate|]);
           apply not_elem_of_nil|]).
  constructor.
Qed.

Lemma defaults_keys k :
  k ∈ (defaults (F := F)).*1 <-> k ∈ ["inc"; "mean"; "gini"; "theil"]%string.
Proof. reflexivity. Qed.

(** A field after the defaults: its own value when it is set, else the
    default. *)
Lemma apply_defaults_field o k d :
  (k, d) ∈ defaults (F := F) ->
  field (apply_fields false defaults o) k = if is_None (field o k) then d else field o k.
Proof.
  intros Hin. destruct (is_None (field o k)) eqn:Ho.
  - apply field_lookup, apply_fields_stored; [apply NoDup_defaults|done|by right].
  - unfold field at 1. by rewrite apply_fields_keep.
Qed.

(** X5: [add_defaults] returns an object (the instance itself, or a copy
    when [copy] is on, the instance then staying as it was) on which inc is
    1 and mean is True where they were unset, every field that was set has
    kept its value, gini and theil are as they were, the four names are
    attributes, and nothing else has changed. *)
Theorem add_defaults_fills h self o copy :
  h !! self = Some o ->
  exists x o' h',
    add_defaults self copy h = (h', OK x)
    /\ (if copy then h !! x = None /\ h' !! self = Some o else x = self)
    /\ h' !! x = Some o'
    /\ field o' "inc" = (if is_None (field o "inc") then VNum (of_Z 1) else field o "inc")
    /\ field o' "mean" = (if is_None (field o "mean") then VBool true else field o "mean")
    /\ field o' "gini" = field o "gini"
    /\ field o' "theil" = field o "theil"
    /\ (forall k, k ∈ ["inc"; "mean"; "gini"; "theil"]%string -> is_Some (o' !! k))
    /\ (forall k, k ∉ ["inc"; "mean"; "gini"; "theil"]%string -> o' !! k = o !! k).
Proof.
  intros E. unfold add_defaults.
  assert (Hf : forall k d, (k, d) ∈ defaults (F := F) ->
             field (apply_fields false defaults o) k
             = if is_None (field o k) then d else field o k)
    by (intros; by apply apply_defaults_field).
  assert (Hg : forall k, (k, VNone) ∈ defaults (F := F) ->
             field (apply_fields false defaults o) k = field o k).
  { intros k Hk. rewrite (Hf k VNone Hk).
    destruct (field o k); reflexivity. }
  destruct copy.
  - exists (fresh (dom h)), (apply_fields false defaults o),
      (<[fresh (dom h) := apply_fields false defaults o]> h).
    split; [by apply update_copy|].
    split; [split; [apply fresh_not_live|]|].
    { rewrite lookup_insert_ne; [done|]. intros Heq. by apply (fresh_ne h self o). }
    split; [apply lookup_insert_eq|].
    split; [apply Hf; repeat constructor|].
    split; [apply Hf; repeat constructor|].
    split; [apply Hg; repeat constructor|].
    split; [apply Hg; repeat constructor|].
    split; [intros k Hk; by apply apply_fields_present|].
    intros k Hk. by apply apply_fields_absent.
  - exists self, (apply_fields false defaults o),
      (<[self := apply_fields false defaults o]> h).
    split; [by apply update_inplace|].
    split; [done|].
    split; [apply lookup_insert_eq|].
    split; [apply Hf; repeat constructor|].
    split; [apply Hf; repeat constructor|].
    split; [apply Hg; repeat constructor|].
    split; [apply Hg; repeat constructor|].
    split; [intros k Hk; by apply apply_fields_present|].
    intros k Hk. by apply apply_fields_absent.
Qed.
End ConfigurationMore.

(* ===================================================================== *)
(** * More on LogNormal *)

Section LogNormalMore.
Context {F : Type} {N : Number F} {S : Special F}.
Implicit Types (h : heap F) (o : attrs F) (l : loc) (kw : kwargs F)
  (self : LogNormal) (q : query F).






Lemma new_then_params (base kw : kwargs F) h :
  ((self <- LogNormal_new base ;; params self kw) h).2
  = params_result (effective (apply_fields true base ∅) kw).
Proof.
  rewrite (bind_OK _ _ _ _ _ (LogNormal_new_run _ h)).
  by erewrite params_run by apply lookup_insert_eq.
Qed.

(** X6: validation waits for the query. [LogNormal()] is completed by an
    override, [LogNormal().params(gini=g)], and the conflict in
    [LogNormal(gini=g, theil=t)] is lifted by overriding one measure with
    None, [.params(theil=None)]; both return what [LogNormal(gini=g).params()]
    returns, the pair derived from g with the defaults inc = 1 and
    mean = True, whatever the numbers g and t. *)
Theorem deferred_validation (g t : F) h :
  let expected :=
    OK (gini_to_std (Scalar g),
        nd_map np_exp (nd_map np_log (Scalar (of_Z 1))
                       - nd_sqr (gini_to_std (Scalar g)) / Scalar (of_Z 2))%nd) in
  ((self <- LogNormal_new [("gini", VNum g)]%string ;; params self []) h).2 = expected
  /\ ((self <- LogNormal_new [] ;; params self [("gini", VNum g)]%string) h).2 = expected
  /\ ((self <- LogNormal_new [("gini", VNum g); ("theil", VNum t)]%string ;;
       params self [("theil", VNone)]%string) h).2 = expected.
Proof.
  intros expected. rewrite !new_then_params. repeat split; reflexivity.
Qed.
End LogNormalMore.

(* ===================================================================== *)
(** * More on the conversions *)

Section ConversionsMore.
Context {F : Type} {N : Number F} {S : Special F}.

Lemma Forall2_map_iff {A B} (P : A -> Prop) (f : A -> B) xs ts :
  Forall2 (fun x t => P x /\ t = f x) xs ts <-> Forall P xs /\ ts = map f xs.
Proof.
  revert ts. induction xs as [|x xs IH]; intros ts; split.
  - intros Hf. inversion_clear Hf. by split.
  - intros [_ ->]. constructor.
  - intros Hf. inversion Hf as [|? t ? ts' [Hx ->] Hr]; subst.
    apply IH in Hr as [Hxs ->]. split; [by constructor|done].
  - intros [Hxs ->]. inversion_clear Hxs. simpl. constructor; [done|].
    apply IH. by split.
Qed.

Lemma Forall2_equiv {A B} (P Q : A -> B -> Prop) xs ts :
  (forall x t, P x t <-> Q x t) -> Forall2 P xs ts <-> Forall2 Q xs ts.
Proof.
  intros Hpq. split; intros Hf; eapply Forall2_impl; try exact Hf;
    intros x t; apply Hpq.
Qed.

Lemma gini_to_theil_Scalar x empirical t :
  gini_to_theil (Scalar x) empirical = OK (Scalar t)
  <-> (in_unit x = true /\ in_theil (gini_to_theil_at empirical x) = true)
      /\ t = gini_to_theil_at empirical x.
Proof.
  split.
  - intros Hr. apply gini_to_theil_inv in Hr as (Hx & Ht & Heq).
    simpl in *. by injection Heq as ->.
  - intros [[Hx Ht] ->]. by rewrite (gini_to_theil_OK (Scalar x)).
Qed.

Lemma theil_to_gini_Scalar x empirical g :
  theil_to_gini (Scalar x) empirical = OK (Scalar g)
  <-> (in_theil x = true /\ in_unit (theil_to_gini_at empirical x) = true)
      /\ g = theil_to_gini_at empirical x.
Proof.
  split.
  - intros Hr. apply theil_to_gini_inv in Hr as (Hx & Hg & Heq).
    simpl in *. by injection Heq as ->.
  - intros [[Hx Hg] ->]. by rewrite (theil_to_gini_OK (Scalar x)).
Qed.

(** X8: on an array a conversion returns exactly when it returns on every
    element taken alone, and then the result is the array of those results,
    of the same length; the empty array is returned empty. An array never
    gives a single number. *)
Theorem conversions_elementwise (xs ts : list F) (empirical : bool) :
  (gini_to_theil (Array xs) empirical = OK (Array ts)
   <-> Forall2 (fun x t => gini_to_theil (Scalar x) empirical = OK (Scalar t)) xs ts)
  /\ (theil_to_gini (Array xs) empirical = OK (Array ts)
      <-> Forall2 (fun x t => theil_to_gini (Scalar x) empirical = OK (Scalar t)) xs ts)
  /\ (forall t, gini_to_theil (Array xs) empirical <> OK (Scalar t))
  /\ (forall t, theil_to_gini (Array xs) empirical <> OK (Scalar t))
  /\ gini_to_theil (Array []) empirical = OK (Array [])
  /\ theil_to_gini (Array []) empirical = OK (Array []).
Proof.
  split; [|split; [|split; [|split; [|split]]]].
  - rewrite (Forall2_equiv _ _ _ _ (fun x t => gini_to_theil_Scalar x empirical t)).
    rewrite Forall2_map_iff. split.
    + intros Hr. apply gini_to_theil_inv in Hr as (Hx & Ht & Heq). simpl in *.
      injection Heq as ->. split; [|done].
      apply Forall_and. by split.
    + intros [Hx ->]. apply Forall_and in Hx as [Hx Ht].
      by rewrite (gini_to_theil_OK (Array xs)).
  - rewrite (Forall2_equiv _ _ _ _ (fun x t => theil_to_gini_Scalar x empirical t)).
    rewrite Forall2_map_iff. split.
    + intros Hr. apply theil_to_gini_inv in Hr as (Hx & Ht & Heq). simpl in *.
      injection Heq as ->. split; [|done].
      apply Forall_and. by split.
    + intros [Hx ->]. apply Forall_and in Hx as [Hx Ht].
      by rewrite (theil_to_gini_OK (Array xs)).
  - intros t Hr. by apply gini_to_theil_inv in Hr as (_ & _ & Heq).
  - intros t Hr. by apply theil_to_gini_inv in Hr as (_ & _ & Heq).
  - by rewrite (gini_to_theil_OK (Array [])) by constructor.
  - by rewrite (theil_to_gini_OK (Array [])) by constructor.
Qed.

(** X7: whenever a conversion returns, every element it was given and every
    element it returns lies strictly inside its interval, by the comparisons
    of the code: Ginis in (0, 1), Theils in (0, MAX_THEIL). *)
Theorem conversions_stay_inside (empirical : bool) :
  (forall g t, gini_to_theil g empirical = OK t ->
     nd_Forall (fun x => n_gt x (of_Z 0) = true /\ n_lt x (of_Z 1) = true) g
     /\ nd_Forall (fun x => n_lt x MAX_THEIL = true /\ n_gt x (of_Z 0) = true) t)
  /\ (forall t g, theil_to_gini t empirical = OK g ->
     nd_Forall (fun x => n_lt x MAX_THEIL = true /\ n_gt x (of_Z 0) = true) t
     /\ nd_Forall (fun x => n_gt x (of_Z 0) = true /\ n_lt x (of_Z 1) = true) g).
Proof.
  split.
  - intros g t Hr. apply gini_to_theil_inv in Hr as (Hg & Ht & ->). split.
    + eapply nd_Forall_impl; [exact Hg|]. intros x. apply andb_true_iff.
    + apply (proj2 (nd_Forall_map _ _ g)).
      eapply nd_Forall_impl; [exact Ht|]. intros x. apply andb_true_iff.
  - intros t g Hr. apply theil_to_gini_inv in Hr as (Ht & Hg & ->). split.
    + eapply nd_Forall_impl; [exact Ht|]. intros x. apply andb_true_iff.
    + apply (proj2 (nd_Forall_map _ _ t)).
      eapply nd_Forall_impl; [exact Hg|]. intros x. apply andb_true_iff.
Qed.
End ConversionsMore.

(* ===================================================================== *)
(** * NaN and the infinities *)

Section FloatsMore.
Context {S : Special float}.

Lemma finite_of_cases s :
  Prim2SF s <> S754_nan -> (forall b, Prim2SF s <> S754_infinity b) ->
  is_finite s = true.
Proof.
  intros Hn Hi. unfold is_finite, is_nan, is_infinity.
  rewrite !FloatAxioms.eqb_spec, FloatAxioms.abs_spec.
  change (Prim2SF infinity) with (S754_infinity false).
  destruct (Prim2SF s) as [b|b| |b m e].
  - destruct b; reflexivity.
  - destruct (Hi b); reflexivity.
  - destruct Hn; reflexivity.
  - unfold SFeqb, SFabs, SFcompare.
    rewrite Z.compare_refl, Pos.compare_refl. destruct b; reflexivity.
Qed.

(** A number strictly between two finite numbers is finite. *)
Lemma between_finite lo hi x :
  is_finite lo = true -> is_finite hi = true ->
  PrimFloat.ltb lo x = true -> PrimFloat.ltb x hi = true -> is_finite x = true.
Proof.
  intros Hlo Hhi H1 H2. apply finite_of_cases.
  - intros E. rewrite FloatAxioms.ltb_spec, E in H2.
    unfold SFltb, SFcompare in H2. discriminate.
  - intros b E. rewrite FloatAxioms.ltb_spec, E in H1, H2.
    unfold is_finite, is_nan, is_infinity in Hlo, Hhi.
    rewrite !FloatAxioms.eqb_spec, FloatAxioms.abs_spec in Hlo, Hhi.
    change (Prim2SF infinity) with (S754_infinity false) in *.
    destruct b.
    + destruct (Prim2SF lo) as [b'|b'| |b' m e]; try destruct b';
        simpl in *; discriminate.
    + destruct (Prim2SF hi) as [b'|b'| |b' m e]; try destruct b';
        simpl in *; discriminate.
Qed.

Lemma in_unit_finite (x : float) : in_unit x = true -> is_finite x = true.
Proof.
  unfold in_unit, n_gt. cbn [n_lt of_Z float_Number].
  intros [H0 H1]%andb_true_iff.
  by apply (between_finite (float_of_Z 0) (float_of_Z 1) x).
Qed.

Lemma in_theil_finite (x : float) : in_theil x = true -> is_finite x = true.
Proof.
  unfold in_theil, n_gt. cbn [n_lt of_Z float_Number].
  intros [H1 H0]%andb_true_iff.
  by apply (between_finite (float_of_Z 0) MAX_THEIL x).
Qed.

(** X9: on binary64 NaN and the infinities never pass a conversion: an
    input with such an element raises the error of the input check, and
    every number a conversion returns is finite. *)
Theorem conversions_finite (empirical : bool) :
  (forall xs x, x ∈ xs -> is_finite x = false ->
     gini_to_theil (Array xs) empirical = Raise (ValueError "Gini not within (0, 1)")
     /\ theil_to_gini (Array xs) empirical
        = Raise (ValueError "Theil not within (0, 2.88)"))
  /\ (forall x, is_finite x = false ->
     gini_to_theil (Scalar x) empirical = Raise (ValueError "Gini not within (0, 1)")
     /\ theil_to_gini (Scalar x) empirical
        = Raise (ValueError "Theil not within (0, 2.88)"))
  /\ (forall g t, gini_to_theil g empirical = OK t ->
     nd_Forall (fun y => is_finite y = true) t)
  /\ (forall t g, theil_to_gini t empirical = OK g ->
     nd_Forall (fun y => is_finite y = true) g).
Proof.
  split; [|split; [|split]].
  - intros xs x Hin Hx. split.
    + apply gini_to_theil_Raise. simpl. intros Hall.
      rewrite Forall_forall in Hall. apply Hall, in_unit_finite in Hin. congruence.
    + apply theil_to_gini_Raise. simpl. intros Hall.
      rewrite Forall_forall in Hall. apply Hall, in_theil_finite in Hin. congruence.
  - intros x Hx. split.
    + apply gini_to_theil_Raise. simpl. intros Hu%in_unit_finite. congruence.
    + apply theil_to_gini_Raise. simpl. intros Hu%in_theil_finite. congruence.
  - intros g t Hr. apply gini_to_theil_inv in Hr as (_ & Ht & ->).
    apply (proj2 (nd_Forall_map _ _ g)).
    eapply nd_Forall_impl; [exact Ht|]. intros y. apply in_theil_finite.
  - intros t g Hr. apply theil_to_gini_inv in Hr as (_ & Hg & ->).
    apply (proj2 (nd_Forall_map _ _ t)).
    eapply nd_Forall_impl; [exact Hg|]. intros y. apply in_unit_finite.
Qed.
End FloatsMore.

(* ===================================================================== *)
(** * More in exact arithmetic *)

Section RealMore.
Context {S : Special R}.
Local Open Scope R_scope.
Local Abbreviation sqrt := R_sqrt.sqrt.

(** The root of the empirical quadratic grows with its argument... *)
Lemma unquad_le t1 t2 : 0 <= t1 <= t2 -> unquad t1 <= unquad t2.
Proof.
  intros Ht. unfold unquad, theil_empirical_constants, dec.
  cbn [n_add n_sub n_mul n_div n_neg n_sqr n_root of_Z R_Number].
  set (b := 991 / 1000). set (a := 216 / 1000). set (c := 3 / 1000).
  assert (Hd : b * b - 4 * a * (c - t1) <= b * b - 4 * a * (c - t2))
    by (unfold a, b, c; nra).
  pose proof (sqrt_le_1_alt _ _ Hd) as Hs.
  assert (Ha : 0 < / (2 * a)) by (apply Rinv_0_lt_compat; unfold a; lra).
  unfold Rdiv. nra.
Qed.

Lemma unquad_lt t1 t2 : 0 <= t1 < t2 -> unquad t1 < unquad t2.
Proof.
  intros Ht. unfold unquad, theil_empirical_constants, dec.
  cbn [n_add n_sub n_mul n_div n_neg n_sqr n_root of_Z R_Number].
  set (b := 991 / 1000). set (a := 216 / 1000). set (c := 3 / 1000).
  assert (Hd : 0 <= b * b - 4 * a * (c - t1) < b * b - 4 * a * (c - t2))
    by (unfold a, b, c; nra).
  pose proof (sqrt_lt_1_alt _ _ Hd) as Hs.
  assert (Ha : 0 < / (2 * a)) by (apply Rinv_0_lt_compat; unfold a; lra).
  unfold Rdiv. nra.
Qed.

(** ... and is 0 at the constant term. *)
Lemma unquad_constant : unquad (3 / 1000) = 0.
Proof.
  unfold unquad, theil_empirical_constants, dec.
  cbn [n_add n_sub n_mul n_div n_neg n_sqr n_root of_Z R_Number].
  replace (991 / 1000 * (991 / 1000)
           - 4 * (216 / 1000) * (3 / 1000 - 3 / 1000))
    with (991 / 1000 * (991 / 1000)) by lra.
  rewrite sqrt_square by lra. lra.
Qed.

Lemma in_theil_unquad t :
  0 <= t -> 0 < unquad t < MAX_THEIL <-> 3 / 1000 < t < quad MAX_THEIL.
Proof.
  intros Ht.
  assert (Hm : unquad (quad (MAX_THEIL (F := R))) = MAX_THEIL)
    by (apply unquad_quad; rewrite MAX_THEIL_R; lra).
  assert (Hq : 0 < quad (MAX_THEIL (F := R)))
    by (apply quad_pos; rewrite MAX_THEIL_R; lra).
  pose proof unquad_constant as Hc.
  split; intros [H1 H2]; split.
  - destruct (Rlt_le_dec (3 / 1000) t) as [|Hle]; [done|].
    pose proof (unquad_le t (3 / 1000) (conj Ht Hle)). lra.
  - destruct (Rlt_le_dec t (quad MAX_THEIL)) as [|Hle]; [done|].
    pose proof (unquad_le (quad MAX_THEIL) t (conj (Rlt_le _ _ Hq) Hle)). lra.
  - pose proof (unquad_lt (3 / 1000) t). lra.
  - pose proof (unquad_lt t (quad MAX_THEIL)). lra.
Qed.

(** X10: the two modes accept different Ginis. For g in (0, 1) let t be
    2 * erfinv(g)^2, the Theil of the plain conversion. The plain conversion
    returns t exactly when 0 < t < MAX_THEIL. The empirical one returns
    exactly when 0.003 < t < quad(MAX_THEIL) (about 16.1): it refuses the
    small Ginis that the plain one converts, and converts large ones that
    the plain one refuses. *)
Theorem gini_acceptance (g : R) :
  0 < g < 1 ->
  let t := 2 * (erfinv g * erfinv g) in
  (0 < t < MAX_THEIL -> gini_to_theil (Scalar g) false = OK (Scalar t))
  /\ (~ 0 < t < MAX_THEIL ->
      gini_to_theil (Scalar g) false = Raise (ValueError "Theil not within (0, 2.88)"))
  /\ (3 / 1000 < t < quad MAX_THEIL ->
      gini_to_theil (Scalar g) true = OK (Scalar (unquad t)))
  /\ (~ 3 / 1000 < t < quad MAX_THEIL ->
      gini_to_theil (Scalar g) true = Raise (ValueError "Theil not within (0, 2.88)")).
Proof.
  intros Hg t.
  assert (Hraw : std_to_theil_at (gini_to_std_at g) = t).
  { unfold std_to_theil_at, gini_to_std_at, t.
    cbn [n_div n_sqr n_mul of_Z R_Number]. lra. }
  assert (Ht0 : 0 <= t) by (unfold t; nra).
  assert (Hu : nd_Forall (fun a => in_unit a = true) (Scalar g))
    by (cbn [nd_Forall]; by apply in_unit_R).
  split; [|split; [|split]].
  - intros Ht. rewrite (gini_to_theil_OK (Scalar g) false); [|done|].
    + cbn [nd_map]. unfold gini_to_theil_at. by rewrite Hraw.
    + cbn [nd_Forall]. unfold gini_to_theil_at. rewrite Hraw. by apply in_theil_R.
  - intros Ht. apply gini_to_theil_Raise_result; [done|]. cbn [nd_Forall].
    unfold gini_to_theil_at. rewrite Hraw. by intros Hin%in_theil_R.
  - intros Ht. rewrite (gini_to_theil_OK (Scalar g) true); [|done|].
    + cbn [nd_map]. unfold gini_to_theil_at. by rewrite Hraw.
    + cbn [nd_Forall]. unfold gini_to_theil_at. rewrite Hraw.
      by apply in_theil_R, in_theil_unquad.
  - intros Ht. apply gini_to_theil_Raise_result; [done|]. cbn [nd_Forall].
    unfold gini_to_theil_at. rewrite Hraw.
    intros Hin%in_theil_R. by apply Ht, in_theil_unquad.
Qed.

Lemma theil_to_std_to_theil_abs (s : R) :
  theil_to_std_at (std_to_theil_at s) = Rabs s.
Proof.
  unfold std_to_theil_at, theil_to_std_at.
  cbn [n_div n_sqr n_root n_mul of_Z R_Number].
  replace (2 * (s * s / 2)) with (Rsqr s) by (unfold Rsqr; lra).
  apply sqrt_Rsqr_abs.
Qed.

(** X11: the round trips in the other order. theil_to_std(std_to_theil(s))
    is |s|, so a negative standard deviation comes back with its sign lost;
    and gini_to_std(std_to_gini(s)) = s for s > 0, erfinv inverting erf
    there. *)
Theorem std_roundtrip_reverse :
  (forall x, 0 < x -> erfinv (erf x) = x) ->
  (forall s : nd R, theil_to_std (std_to_theil s) = nd_map Rabs s)
  /\ (forall s : nd R, nd_Forall (fun x => 0 < x) s ->
      gini_to_std (std_to_gini s) = s).
Proof.
  intros Hinv. split.
  - intros s. rewrite std_to_theil_map, theil_to_std_map, nd_map_map.
    apply nd_map_ext_Forall.
    destruct s as [x|xs]; simpl; [apply theil_to_std_to_theil_abs|].
    apply Forall_forall. intros x _. apply theil_to_std_to_theil_abs.
  - intros s Hs. rewrite std_to_gini_map, gini_to_std_map, nd_map_map.
    apply nd_map_id_Forall. eapply nd_Forall_impl; [exact Hs|].
    intros x Hx. unfold gini_to_std_at, std_to_gini_at.
    rewrite Hinv by (unfold dec; cbn [n_mul n_div of_Z R_Number]; lra).
    apply double_of_half.
Qed.
End RealMore.

(* ===================================================================== *)
(** * The further theorems at the example instances *)

Section MoreInstances.
Local Existing Instance standin.
Local Open Scope R_scope.

Lemma NoDup_fill_example : NoDup fill_example.*1.
Proof.
  unfold fill_example; simpl.
  repeat (constructor;
          [repeat (apply not_elem_of_cons; split; [discriminate|]);
           apply not_elem_of_nil|]).
  constructor.
Defined.


(** The median example updated twice with gini and theil, [override] off
    (an instance of X4). *)
Lemma update_twice_witness :
  (update 1%positive false false fill_example ;;
   update 1%positive false false fill_example) (store_of median_example)
  = update 1%positive false false fill_example (store_of median_example).
Proof. apply (update_twice 1%positive false fill_example), NoDup_fill_example. Defined.

(** [LogNormalData(gini=1.5).add_defaults()]: the copy has inc = 1 and
    mean = True and keeps the Gini (an instance of X5). *)
Lemma add_defaults_fills_witness :
  exists x o' h',
    add_defaults 1%positive true (store_of wild_example) = (h', OK x)
    /\ h' !! x = Some o'
    /\ field o' "inc" = VNum 1%float
    /\ field o' "mean" = VBool true
    /\ field o' "gini" = VNum 1.5%float.
Proof.
  destruct (add_defaults_fills (store_of wild_example) 1%positive
              (apply_fields true wild_example ∅) true eq_refl)
    as (x & o' & h' & Hr & _ & Hx & Hi & Hm & Hg & _).
  exists x, o', h'. repeat split; [exact Hr|exact Hx|exact Hi|exact Hm|exact Hg].
Defined.



Lemma standin_erfinv_small : standin_erfinv small_gini_example = 1 / 99.
Proof.
  unfold small_gini_example. rewrite standin_erfinv_nonneg by lra. field.
Qed.

Lemma standin_erfinv_large : standin_erfinv large_gini_example = 2.
Proof.
  unfold large_gini_example. rewrite standin_erfinv_nonneg by lra. field.
Qed.

Lemma quad_MAX_THEIL_bounds : 16 < quad (MAX_THEIL (F := R)) < 17.
Proof.
  unfold quad, theil_empirical_constants, MAX_THEIL, dec.
  cbn [n_add n_sub n_mul n_div n_neg n_sqr n_root of_Z R_Number]. lra.
Qed.

(** A Gini of 0.01: the plain conversion returns, the empirical one raises
    (an instance of X10). *)
Lemma gini_acceptance_small_witness :
  (exists t, gini_to_theil (Scalar small_gini_example) false = OK (Scalar t))
  /\ gini_to_theil (Scalar small_gini_example) true
     = Raise (ValueError "Theil not within (0, 2.88)").
Proof.
  destruct (gini_acceptance (S := standin) small_gini_example)
    as (Hplain & _ & _ & Hemp).
  { unfold small_gini_example. lra. }
  change (erfinv small_gini_example) with (standin_erfinv small_gini_example)
    in Hplain, Hemp.
  rewrite standin_erfinv_small in Hplain, Hemp.
  split.
  - eexists. apply Hplain. rewrite MAX_THEIL_R. lra.
  - apply Hemp. lra.
Defined.

(** A Gini of 2/3, where the stand-in for erfinv is 2 and the plain Theil
    is 8: the plain conversion raises, the empirical one returns. *)
Lemma gini_acceptance_large :
  gini_to_theil (Scalar large_gini_example) false
  = Raise (ValueError "Theil not within (0, 2.88)")
  /\ exists t, gini_to_theil (Scalar large_gini_example) true = OK (Scalar t).
Proof.
  destruct (gini_acceptance (S := standin) large_gini_example)
    as (_ & Hplain & Hemp & _).
  { unfold large_gini_example. lra. }
  change (erfinv large_gini_example) with (standin_erfinv large_gini_example)
    in Hplain, Hemp.
  rewrite standin_erfinv_large in Hplain, Hemp.
  pose proof quad_MAX_THEIL_bounds as Hq.
  split.
  - apply Hplain. rewrite MAX_THEIL_R. lra.
  - eexists. apply Hemp. lra.
Qed.

(** A Gini of 0.5 on binary64, where the stand-in for erfinv is 1 and the
    Theil is 2 (an instance of X7). *)
Lemma conversions_stay_inside_witness :
  nd_Forall (fun x => n_gt x (of_Z 0) = true /\ n_lt x (of_Z 1) = true)
    (Scalar 0.5%float)
  /\ nd_Forall (fun x => n_lt x MAX_THEIL = true /\ n_gt x (of_Z 0) = true)
       (Scalar 2%float).
Proof.
  apply (proj1 (conversions_stay_inside (S := standin) false)
           (Scalar 0.5%float) (Scalar 2%float)).
  vm_compute. reflexivity.
Defined.

(** An array with a NaN raises, and the Theil returned for 0.5 is finite
    (an instance of X9). *)
Lemma conversions_finite_witness :
  gini_to_theil (Array [0.5; nan]%float) true
  = Raise (ValueError "Gini not within (0, 1)")
  /\ nd_Forall (fun y => is_finite y = true) (Scalar 2%float).
Proof.
  destruct (conversions_finite (S := standin) true) as (Hbad & _ & _).
  destruct (conversions_finite (S := standin) false) as (_ & _ & Hgood & _).
  split.
  - apply (Hbad [0.5; nan]%float nan); [repeat constructor|reflexivity].
  - apply (Hgood (Scalar 0.5%float) (Scalar 2%float)). vm_compute. reflexivity.
Defined.

(** Standard deviations -2, 0 and 3 through the Theil and back, and 1/2 and
    3 through the Gini and back (an instance of X11). *)
Lemma std_roundtrip_reverse_witness :
  theil_to_std (std_to_theil signed_std_examples) = nd_map Rabs signed_std_examples
  /\ gini_to_std (std_to_gini positive_std_examples) = positive_std_examples.
Proof.
  destruct (std_roundtrip_reverse (S := standin) standin_erfinv_erf) as [Ht Hg].
  split; [apply Ht|apply Hg]. repeat constructor; lra.
Defined.
End MoreInstances.
